(** * Watercolour painting pipeline: the Gemini service call and the React
      application state around it.

    The development follows the two source files:
    - [GeminiService]: [generateWatercolourPainting] of src/geminiService.ts,
      its input pattern, its retry loop and its error wrapping;
    - [App]: the state and the handlers of the [App] component
      ([initMap], [captureMapView], [handleShow3DView],
      [handleGenerateWatercolour], [handleBackToMap]).

    JavaScript strings are sequences of UTF-16 code units, and this is how
    they are modelled ([JsString]); string literals of the source are written
    as UTF-8 text and decoded by [lit]. *)

From Stdlib Require Import List NArith ZArith Bool Ascii String Lia.
From Stdlib Require Import DecimalString.
Import ListNotations.

Set Implicit Arguments.

(* ================================================================= *)
(** ** JavaScript strings *)

Module Js.

Definition CodeUnit := N.
Definition JsString := list CodeUnit.

(** Decoding of a UTF-8 byte sequence (a Rocq string literal) into UTF-16
    code units.  Code points above U+FFFF become a surrogate pair. *)
Definition cont (a : ascii) : N := N.land (N_of_ascii a) 63.

Fixpoint lit (s : string) : JsString :=
  match s with
  | EmptyString => []
  | String b0 rest =>
      let n0 := N_of_ascii b0 in
      if (n0 <? 128)%N then n0 :: lit rest
      else if (n0 <? 224)%N then
        match rest with
        | String b1 rest1 =>
            (N.land n0 31 * 64 + cont b1)%N :: lit rest1
        | _ => [n0]
        end
      else if (n0 <? 240)%N then
        match rest with
        | String b1 (String b2 rest2) =>
            (N.land n0 15 * 4096 + cont b1 * 64 + cont b2)%N :: lit rest2
        | _ => [n0]
        end
      else
        match rest with
        | String b1 (String b2 (String b3 rest3)) =>
            let cp := (N.land n0 7 * 262144 + cont b1 * 4096
                       + cont b2 * 64 + cont b3)%N in
            let v := (cp - 65536)%N in
            (55296 + N.shiftr v 10)%N :: (56320 + N.land v 1023)%N :: lit rest3
        | _ => [n0]
        end
  end.

(** The double quote, which a literal cannot hold. *)
Definition dquote : JsString := [34%N].

(** A string is falsy exactly when it is empty. *)
Definition truthy (s : JsString) : bool :=
  match s with [] => false | _ :: _ => true end.

(** [s.startsWith(p)] *)
Fixpoint startsWith (p s : JsString) : bool :=
  match p, s with
  | [], _ => true
  | _ :: _, [] => false
  | a :: p', c :: s' => (a =? c)%N && startsWith p' s'
  end.

(** [s.includes(needle)] *)
Fixpoint includes (s needle : JsString) : bool :=
  startsWith needle s ||
  match s with
  | [] => false
  | _ :: s' => includes s' needle
  end.

(** What remains of [s] after the literal prefix [p], if [s] starts with it. *)
Fixpoint stripPrefix (p s : JsString) : option JsString :=
  match p, s with
  | [], _ => Some s
  | _ :: _, [] => None
  | a :: p', c :: s' => if (a =? c)%N then stripPrefix p' s' else None
  end.

(** The longest prefix of code units satisfying [f], and the rest. *)
Fixpoint span (f : CodeUnit -> bool) (s : JsString) : JsString * JsString :=
  match s with
  | [] => ([], [])
  | c :: s' =>
      if f c then let (w, r) := span f s' in (c :: w, r)
      else ([], s)
  end.

(** What is left after the run taken by [span]: nothing, or a code unit
    outside the class. *)
Definition stopsAt (f : CodeUnit -> bool) (r : JsString) : Prop :=
  match r with
  | [] => True
  | c :: _ => f c = false
  end.

(** The regular expression class [\w]: [A-Za-z0-9_]. *)
Definition isWordChar (c : CodeUnit) : bool :=
  ((48 <=? c) && (c <=? 57) || (65 <=? c) && (c <=? 90)
   || (97 <=? c) && (c <=? 122) || (c =? 95))%N.

(** ECMAScript LineTerminator: LF, CR, U+2028, U+2029.  The pattern
    character [.] matches every code unit but these. *)
Definition isLineTerminator (c : CodeUnit) : bool :=
  ((c =? 10) || (c =? 13) || (c =? 8232) || (c =? 8233))%N.

Definition isDot (c : CodeUnit) : bool := negb (isLineTerminator c).

(** ECMAScript WhiteSpace, which [trim] strips together with the line
    terminators. *)
Definition isWhiteSpace (c : CodeUnit) : bool :=
  ((c =? 9) || (c =? 11) || (c =? 12) || (c =? 32) || (c =? 160)
   || (c =? 5760) || (8192 <=? c) && (c <=? 8202) || (c =? 8239)
   || (c =? 8287) || (c =? 12288) || (c =? 65279))%N.

Definition isTrimmed (c : CodeUnit) : bool :=
  isWhiteSpace c || isLineTerminator c.

Fixpoint trimStart (s : JsString) : JsString :=
  match s with
  | [] => []
  | c :: s' => if isTrimmed c then trimStart s' else s
  end.

(** [s.trim()] *)
Definition trim (s : JsString) : JsString :=
  rev (trimStart (rev (trimStart s))).

(** The decimal rendering of an integer, as a template literal does it. *)
Definition numberToString (z : Z) : JsString :=
  lit (NilZero.string_of_int (Z.to_int z)).

(** A template literal renders [undefined] as the word. *)
Definition display (v : option JsString) : JsString :=
  match v with
  | Some s => s
  | None => lit "undefined"
  end.

End Js.
Import Js.

(* ================================================================= *)
(** ** src/geminiService.ts *)

Module GeminiService.

(** *** Values exchanged with the SDK *)

(** The SDK declares every field of a response optional. *)
Record Blob := { mimeType : option JsString; data : option JsString }.
Record Part := { inlineData : option Blob; partText : option JsString }.
Record Content := { parts : option (list Part) }.
Record Candidate := { content : option Content }.

(** [text] is the accessor the SDK provides on a response; its value is
    taken as the SDK gives it. *)
Record GenerateContentResponse :=
  { candidates : option (list Candidate); text : option JsString }.

(** The request of line 49: the model name and the two parts. *)
Record GenerateContentParameters :=
  { model : JsString;
    imagePart : JsString * JsString;   (* inlineData: mimeType, data *)
    textPart : JsString }.

(** A thrown value is an [Error] (with its message) or anything else, of
    which the code only looks at [JSON.stringify]: a text, or [undefined]
    for some values.  A value whose serialization itself throws is not
    covered. *)
Inductive Thrown :=
| ErrorObject (message : JsString)
| OtherValue (json : option JsString).

(** How a promise settles. *)
Inductive Settled (A : Type) :=
| Fulfilled (a : A)
| Rejected (e : Thrown).
Arguments Fulfilled {A} a.
Arguments Rejected {A} e.

(** What lies outside the function: the outcome of the remote call made in
    each iteration of the loop, and the engine's wording of the [TypeError]
    raised when a property of [undefined] is read. *)
Record Runtime :=
  { generateContent :
      Z -> GenerateContentParameters -> Settled GenerateContentResponse;
    typeErrorMessage : JsString -> JsString }.

(** The effects of one run that the properties speak of, in order: the
    remote calls and the waits.  What is written to the console is left
    out. *)
Inductive Event :=
| Call (request : GenerateContentParameters)
| Sleep (ms : Z).

(** *** Literals *)

Definition invalidDataUrlMessage : JsString :=
  lit "無效的圖片數據 URL 格式。預期格式為 'data:image/...;base64,...'".

Definition prompt : JsString :=
  lit "Create a traditional watercolor painting from the front of this building. Add a tiny signature that says "
  ++ dquote ++ lit "Gemini" ++ dquote.

Definition modelName : JsString := lit "gemini-2.5-flash-image".

Definition noTextMessage : JsString := lit "未收到文字回應。".

(** [textResponse || '...'] *)
Definition orNoText (textResponse : option JsString) : JsString :=
  match textResponse with
  | Some t => if truthy t then t else noTextMessage
  | None => noTextMessage
  end.

Definition textInsteadOfImageMessage (textResponse : option JsString)
  : JsString :=
  lit "AI 模型回傳了文字而非圖片: " ++ dquote ++ orNoText textResponse ++ dquote.

Definition failedAfter (attempt : Z) : JsString :=
  lit "AI 模型在嘗試 " ++ numberToString attempt ++ lit " 次後無法生成圖片。".

Definition failedWithDetailMessage (attempt : Z) (message : JsString)
  : JsString :=
  failedAfter attempt ++ lit "詳細資訊: " ++ message.

Definition failedSeeConsoleMessage (attempt : Z) : JsString :=
  failedAfter attempt ++ lit "請查看控制台以獲取更多詳細資訊。".

Definition afterAllRetriesMessage : JsString :=
  lit "AI 模型在所有重試後未能生成圖片。".

Definition code500 : JsString := dquote ++ lit "code" ++ dquote ++ lit ":500".
Definition INTERNAL : JsString := lit "INTERNAL".

Definition maxRetries : Z := 3%Z.
Definition initialDelay : Z := 1000%Z.

(** *** The input pattern *)

(** Line 22, the match of [imageDataUrl] against the pattern: anchored at
    both ends, [data:], then the first capture [image\/\w+], then
    [;base64,], then the second capture, any number of [.].  It gives the two
    captures, or [None] when the pattern does not match.  [\w+] is greedy
    and the literal after it starts with a code unit outside [\w], so the
    longest run of word characters is the only candidate. *)
Definition matchDataUrl (imageDataUrl : JsString)
  : option (JsString * JsString) :=
  match stripPrefix (lit "data:") imageDataUrl with
  | None => None
  | Some r1 =>
      match stripPrefix (lit "image/") r1 with
      | None => None
      | Some r2 =>
          let (w, r3) := span isWordChar r2 in
          if truthy w then
            match stripPrefix (lit ";base64,") r3 with
            | None => None
            | Some payload =>
                if forallb isDot payload
                then Some (lit "image/" ++ w, payload)
                else None
            end
          else None
      end
  end.

(** *** The body of the loop *)

(** [`data:${mimeType};base64,${data}`] *)
Definition dataUrl (mimeType data : JsString) : JsString :=
  lit "data:" ++ mimeType ++ lit ";base64," ++ data.

(** [response.candidates?.[0]?.content?.parts] *)
Definition firstCandidateParts (response : GenerateContentResponse)
  : option (list Part) :=
  match candidates response with
  | Some (c :: _) =>
      match content c with
      | Some ct => parts ct
      | None => None
      end
  | _ => None
  end.

Definition hasInlineData (p : Part) : bool :=
  match inlineData p with Some _ => true | None => false end.

(** [...?.find(part => part.inlineData)], then [?.inlineData] *)
Definition imagePartFromResponse (response : GenerateContentResponse)
  : option Blob :=
  match firstCandidateParts response with
  | Some ps =>
      match find hasInlineData ps with
      | Some p => inlineData p
      | None => None
      end
  | None => None
  end.

(** Lines 49 to 64: the [try] block of iteration [attempt].  It returns the
    data URL, or the value thrown inside the block: the rejection of the
    remote call, the [TypeError] of [data.length] on a part without data,
    or the error for a response without an image. *)
Definition tryBlock (rt : Runtime) (request : GenerateContentParameters)
           (attempt : Z) : Settled JsString :=
  match generateContent rt attempt request with
  | Rejected e => Rejected e
  | Fulfilled response =>
      match imagePartFromResponse response with
      | Some blob =>
          match data blob with
          | Some d => Fulfilled (dataUrl (display (mimeType blob)) d)
          | None => Rejected (ErrorObject (typeErrorMessage rt (lit "length")))
          end
      | None =>
          Rejected (ErrorObject (textInsteadOfImageMessage (text response)))
      end
  end.

(** Line 69: [error instanceof Error ? error.message : JSON.stringify(error)] *)
Definition errorMessage (error : Thrown) : option JsString :=
  match error with
  | ErrorObject message => Some message
  | OtherValue json => json
  end.

(** Line 70 *)
Definition isInternalError (errorMessage : JsString) : bool :=
  includes errorMessage code500 || includes errorMessage INTERNAL.

(** Line 73: [initialDelay * Math.pow(2, attempt - 1)] *)
Definition backoffDelay (attempt : Z) : Z :=
  (initialDelay * 2 ^ (attempt - 1))%Z.

Inductive Caught :=
| Retry (delay : Z)
| Throw (e : Thrown).

(** Lines 79 to 82: the error thrown when the caught one is not retried. *)
Definition wrapError (attempt : Z) (error : Thrown) : Thrown :=
  match error with
  | ErrorObject message =>
      ErrorObject (failedWithDetailMessage attempt message)
  | OtherValue _ => ErrorObject (failedSeeConsoleMessage attempt)
  end.

(** Lines 66 to 83: the [catch] block of iteration [attempt].  When
    [JSON.stringify] gave [undefined], reading [includes] raises a
    [TypeError] that leaves the function. *)
Definition catchBlock (rt : Runtime) (attempt : Z) (error : Thrown) : Caught :=
  match errorMessage error with
  | None => Throw (ErrorObject (typeErrorMessage rt (lit "includes")))
  | Some msg =>
      if isInternalError msg && (attempt <? maxRetries)%Z
      then Retry (backoffDelay attempt)
      else Throw (wrapError attempt error)
  end.

(** Lines 47 to 87: the loop, entered at [attempt] with [remaining]
    iterations left before [attempt <= maxRetries] fails. *)
Fixpoint attemptLoop (rt : Runtime) (request : GenerateContentParameters)
         (remaining : nat) (attempt : Z) : Settled JsString * list Event :=
  match remaining with
  | O => (Rejected (ErrorObject afterAllRetriesMessage), [])
  | S remaining' =>
      match tryBlock rt request attempt with
      | Fulfilled url => (Fulfilled url, [Call request])
      | Rejected error =>
          match catchBlock rt attempt error with
          | Retry delay =>
              let (r, tr) := attemptLoop rt request remaining' (attempt + 1)%Z in
              (r, Call request :: Sleep delay :: tr)
          | Throw e => (Rejected e, [Call request])
          end
      end
  end.

Definition request (mimeType base64Data : JsString)
  : GenerateContentParameters :=
  {| model := modelName;
     imagePart := (mimeType, base64Data);
     textPart := prompt |}.

Definition generateWatercolourPainting (rt : Runtime)
           (imageDataUrl : JsString) : Settled JsString * list Event :=
  match matchDataUrl imageDataUrl with
  | None => (Rejected (ErrorObject invalidDataUrlMessage), [])
  | Some (mimeType, base64Data) =>
      attemptLoop rt (request mimeType base64Data) (Z.to_nat maxRetries) 1%Z
  end.

(** *** Reading a trace *)

Fixpoint calls (tr : list Event) : nat :=
  match tr with
  | [] => 0
  | Call _ :: tr' => S (calls tr')
  | Sleep _ :: tr' => calls tr'
  end.

(** *** Notions used to state the properties *)

(** The loop as entered at iteration [attempt]: the iterations left are
    those up to [maxRetries]. *)
Definition loopFrom (rt : Runtime) (request : GenerateContentParameters)
           (attempt : Z) : Settled JsString * list Event :=
  attemptLoop rt request (Z.to_nat (maxRetries + 1 - attempt)) attempt.

(** The trace of [n] iterations that are retried, the first of them being
    iteration [attempt]: a call, then the backoff wait. *)
Fixpoint retriedFrom (request : GenerateContentParameters) (attempt : Z)
         (n : nat) : list Event :=
  match n with
  | O => []
  | S n' =>
      Call request :: Sleep (backoffDelay attempt)
        :: retriedFrom request (attempt + 1)%Z n'
  end.

(** The language of the input pattern, with its two captures. *)
Definition DataUrlForm (s mimeType payload : JsString) : Prop :=
  exists w,
    w <> [] /\ forallb isWordChar w = true /\
    mimeType = lit "image/" ++ w /\
    forallb isDot payload = true /\
    s = lit "data:" ++ mimeType ++ lit ";base64," ++ payload.

(** The description of the caught value carries one of the two markers. *)
Definition hasInternalMarker (error : Thrown) : bool :=
  match errorMessage error with
  | Some msg => isInternalError msg
  | None => false
  end.

(** Iteration [attempt] fails with [error], and [error] is retryable. *)
Definition RetryableFailure (rt : Runtime)
           (request : GenerateContentParameters) (attempt : Z)
           (error : Thrown) : Prop :=
  tryBlock rt request attempt = Rejected error /\
  hasInternalMarker error = true.

(** A well-formed image blob in the words of the specification: a data URL
    with a recognized image MIME type and a non-empty payload. *)
Definition wellFormedImageBlob (s : JsString) : bool :=
  match matchDataUrl s with
  | Some (_, payload) => truthy payload
  | None => false
  end.

(** The first part of [ps] that carries inline data is [p]. *)
Definition FirstInlinePart (ps : list Part) (p : Part) (blob : Blob) : Prop :=
  exists before after,
    ps = before ++ p :: after /\
    forallb (fun q => negb (hasInlineData q)) before = true /\
    inlineData p = Some blob.

(** The failures the function can end with. *)
Inductive GenerationFailure (rt : Runtime) : Thrown -> Prop :=
| InvalidInput :
    GenerationFailure rt (ErrorObject invalidDataUrlMessage)
| FailedAfter attempt error :
    (1 <= attempt <= maxRetries)%Z ->
    GenerationFailure rt (wrapError attempt error)
| DescriptionUndefined :
    GenerationFailure rt (ErrorObject (typeErrorMessage rt (lit "includes"))).

End GeminiService.

(* ================================================================= *)
(** ** The [App] component (src/unnamed/part_000) *)

(** A handler is modelled by the steps it takes, in program order, from the
    state it is called in: writes to the cells of the component and calls
    that leave it.  In [step] and [steps] handlers run one at a time, each
    to its end, which is the single sequential chain per user action of the
    specification; the values a handler reads from its closure are then
    those of the state it is called in.  A handler that runs while another
    one is suspended at an await is the matter of [Notions.overlapped]. *)

Module App.
Import GeminiService.

Section Component.

(** Coordinates are opaque to the component: it only passes them on. *)
Variable LatLngLiteral : Type.

(** What the component keeps of the map widget and of its marker. *)
Record MapInstance := { center : LatLngLiteral }.
Record Marker :=
  { position : LatLngLiteral; title : JsString; attached : bool }.

(** The [useState] cells and the [useRef] cells of the component.
    [mapRef] tells whether the map [div] is mounted. *)
Record AppState :=
  { address : JsString;
    error : option JsString;
    isLoading : bool;
    mapInitialized : bool;
    isGeneratingPainting : bool;
    watercolourPainting : JsString;
    capturedMapImage : JsString;
    placeholder : JsString;
    mapRef : bool;
    mapInstanceRef : option MapInstance;
    markerInstanceRef : option Marker }.

(** One step of a handler: a write to a cell, or a call that leaves the
    component. *)
Inductive Op :=
| SetAddress (v : JsString)
| SetError (v : option JsString)
| SetIsLoading (v : bool)
| SetMapInitialized (v : bool)
| SetIsGeneratingPainting (v : bool)
| SetWatercolourPainting (v : JsString)
| SetCapturedMapImage (v : JsString)
| SetPlaceholder (v : JsString)
| SetMapInstance (m : MapInstance)
| SetMarker (m : Marker)
| CaptureMapView
| GeneratePainting (imageDataUrl : JsString) (trace : list Event)
| Download (href filename : JsString).

Definition applyOp (st : AppState) (op : Op) : AppState :=
  match op with
  | SetAddress v =>
      {| address := v; error := error st; isLoading := isLoading st;
         mapInitialized := mapInitialized st;
         isGeneratingPainting := isGeneratingPainting st;
         watercolourPainting := watercolourPainting st;
         capturedMapImage := capturedMapImage st;
         placeholder := placeholder st; mapRef := mapRef st;
         mapInstanceRef := mapInstanceRef st;
         markerInstanceRef := markerInstanceRef st |}
  | SetError v =>
      {| address := address st; error := v; isLoading := isLoading st;
         mapInitialized := mapInitialized st;
         isGeneratingPainting := isGeneratingPainting st;
         watercolourPainting := watercolourPainting st;
         capturedMapImage := capturedMapImage st;
         placeholder := placeholder st; mapRef := mapRef st;
         mapInstanceRef := mapInstanceRef st;
         markerInstanceRef := markerInstanceRef st |}
  | SetIsLoading v =>
      {| address := address st; error := error st; isLoading := v;
         mapInitialized := mapInitialized st;
         isGeneratingPainting := isGeneratingPainting st;
         watercolourPainting := watercolourPainting st;
         capturedMapImage := capturedMapImage st;
         placeholder := placeholder st; mapRef := mapRef st;
         mapInstanceRef := mapInstanceRef st;
         markerInstanceRef := markerInstanceRef st |}
  | SetMapInitialized v =>
      {| address := address st; error := error st;
         isLoading := isLoading st; mapInitialized := v;
         isGeneratingPainting := isGeneratingPainting st;
         watercolourPainting := watercolourPainting st;
         capturedMapImage := capturedMapImage st;
         placeholder := placeholder st; mapRef := mapRef st;
         mapInstanceRef := mapInstanceRef st;
         markerInstanceRef := markerInstanceRef st |}
  | SetIsGeneratingPainting v =>
      {| address := address st; error := error st;
         isLoading := isLoading st; mapInitialized := mapInitialized st;
         isGeneratingPainting := v;
         watercolourPainting := watercolourPainting st;
         capturedMapImage := capturedMapImage st;
         placeholder := placeholder st; mapRef := mapRef st;
         mapInstanceRef := mapInstanceRef st;
         markerInstanceRef := markerInstanceRef st |}
  | SetWatercolourPainting v =>
      {| address := address st; error := error st;
         isLoading := isLoading st; mapInitialized := mapInitialized st;
         isGeneratingPainting := isGeneratingPainting st;
         watercolourPainting := v;
         capturedMapImage := capturedMapImage st;
         placeholder := placeholder st; mapRef := mapRef st;
         mapInstanceRef := mapInstanceRef st;
         markerInstanceRef := markerInstanceRef st |}
  | SetCapturedMapImage v =>
      {| address := address st; error := error st;
         isLoading := isLoading st; mapInitialized := mapInitialized st;
         isGeneratingPainting := isGeneratingPainting st;
         watercolourPainting := watercolourPainting st;
         capturedMapImage := v;
         placeholder := placeholder st; mapRef := mapRef st;
         mapInstanceRef := mapInstanceRef st;
         markerInstanceRef := markerInstanceRef st |}
  | SetPlaceholder v =>
      {| address := address st; error := error st;
         isLoading := isLoading st; mapInitialized := mapInitialized st;
         isGeneratingPainting := isGeneratingPainting st;
         watercolourPainting := watercolourPainting st;
         capturedMapImage := capturedMapImage st;
         placeholder := v; mapRef := mapRef st;
         mapInstanceRef := mapInstanceRef st;
         markerInstanceRef := markerInstanceRef st |}
  | SetMapInstance m =>
      {| address := address st; error := error st;
         isLoading := isLoading st; mapInitialized := mapInitialized st;
         isGeneratingPainting := isGeneratingPainting st;
         watercolourPainting := watercolourPainting st;
         capturedMapImage := capturedMapImage st;
         placeholder := placeholder st; mapRef := mapRef st;
         mapInstanceRef := Some m;
         markerInstanceRef := markerInstanceRef st |}
  | SetMarker m =>
      {| address := address st; error := error st;
         isLoading := isLoading st; mapInitialized := mapInitialized st;
         isGeneratingPainting := isGeneratingPainting st;
         watercolourPainting := watercolourPainting st;
         capturedMapImage := capturedMapImage st;
         placeholder := placeholder st; mapRef := mapRef st;
         mapInstanceRef := mapInstanceRef st;
         markerInstanceRef := Some m |}
  | CaptureMapView | GeneratePainting _ _ | Download _ _ => st
  end.

(** The state after the steps of a handler, in order. *)
Definition run (st : AppState) (ops : list Op) : AppState :=
  fold_left applyOp ops st.

(** *** Literals *)

Definition placeholders : list JsString :=
  [ lit "法國巴黎艾菲爾鐵塔"; lit "您的家鄉"; lit "英國倫敦白金漢宮";
    lit "你們初次相遇的地方"; lit "美國紐約自由女神像";
    lit "台北 101 大樓"; lit "日本京都清水寺" ].

Definition mapNotInitializedMessage : JsString := lit "地圖尚未初始化。".
Definition enterAddressMessage : JsString := lit "請輸入地址。".
Definition unknownErrorMessage : JsString := lit "發生未知錯誤。".
Definition paintingFailedMessage : JsString := lit "生成水彩畫失敗。".

Definition notFoundTryMessage (address : JsString) : JsString :=
  lit "找不到 " ++ dquote ++ address ++ dquote
  ++ lit " 的位置。請嘗試更具體的地址或從清單中選擇。".

Definition notFoundCheckMessage (address : JsString) : JsString :=
  lit "找不到 " ++ dquote ++ address ++ dquote
  ++ lit " 的位置。請檢查地址後重試。".

(** *** The component after it is mounted *)

Definition initialState : AppState :=
  {| address := []; error := None; isLoading := false;
     mapInitialized := false; isGeneratingPainting := false;
     watercolourPainting := []; capturedMapImage := [];
     placeholder := nth 0 placeholders [];
     mapRef := true; mapInstanceRef := None;
     markerInstanceRef := None |}.

(** *** Handlers.  Each gives its steps from the state it is called in. *)

Definition jsStringEqb (a b : JsString) : bool :=
  if list_eq_dec N.eq_dec a b then true else false.

(** [placeholders.indexOf(current)], as the index plus one: 0 when
    [current] is not in the list. *)
Fixpoint indexOfSucc (l : list JsString) (current : JsString) : nat :=
  match l with
  | [] => 0
  | p :: l' =>
      if jsStringEqb p current then 1
      else match indexOfSucc l' current with
           | 0 => 0
           | S i => S (S i)
           end
  end.

(** Lines 45 to 51: the interval callback. *)
Definition rotatePlaceholder (st : AppState) : list Op :=
  let nextIndex :=
    Nat.modulo (indexOfSucc placeholders (placeholder st))
               (List.length placeholders) in
  [SetPlaceholder (nth nextIndex placeholders [])].

(** Lines 56 to 103.  [librariesLoaded] tells whether the two awaited
    [importLibrary] calls resolve; when one rejects, the function ends
    before it has written anything. *)
Definition initMap (librariesLoaded : bool) (location : LatLngLiteral)
           (formattedAddr : JsString) (st : AppState) : list Op :=
  if negb (mapRef st) then []
  else if negb librariesLoaded then []
  else
    [ SetMapInstance {| center := location |};
      SetMarker
        match markerInstanceRef st with
        | None =>
            {| position := location; title := formattedAddr;
               attached := false |}
        | Some _ =>
            {| position := location; title := formattedAddr;
               attached := true |}
        end;
      SetMapInitialized true;
      SetWatercolourPainting [];
      SetCapturedMapImage [] ].

Record PlaceResult :=
  { placeLocation : option LatLngLiteral;
    formatted_address : option JsString }.

(** Lines 116 to 122: the [place_changed] listener. *)
Definition placeChanged (place : PlaceResult) (librariesLoaded : bool)
           (st : AppState) : list Op :=
  match placeLocation place, formatted_address place with
  | Some location, Some formattedAddr =>
      if truthy formattedAddr
      then SetAddress formattedAddr
             :: initMap librariesLoaded location formattedAddr st
      else []
  | _, _ => []
  end.

(** Lines 135 to 145.  [canvas] is what [html2canvas] and [toDataURL]
    give when they are reached. *)
Definition captureMapView (canvas : Settled JsString) (st : AppState)
  : Settled JsString :=
  match mapInstanceRef st with
  | None => Rejected (ErrorObject mapNotInitializedMessage)
  | Some _ => canvas
  end.

Record GeocoderResult :=
  { geometryLocation : LatLngLiteral; resultAddress : JsString }.

(** Lines 170 to 175 *)
Definition show3DViewError (address : JsString) (err : Thrown) : JsString :=
  match err with
  | ErrorObject message =>
      if includes message (lit "ZERO_RESULTS")
      then notFoundCheckMessage address
      else message
  | OtherValue _ => unknownErrorMessage
  end.

(** Lines 147 to 179.  [geocode] is the outcome of loading the geocoding
    library and of the geocoder's call.  [initMap] is not awaited: its
    writes come after the [finally] block. *)
Definition handleShow3DView
           (geocode : Settled (option (list GeocoderResult)))
           (librariesLoaded : bool) (st : AppState) : list Op :=
  SetError None ::
  if negb (truthy (trim (address st))) then [SetError (Some enterAddressMessage)]
  else
    SetIsLoading true ::
    match geocode with
    | Fulfilled (Some (r :: _)) =>
        [SetAddress (resultAddress r); SetIsLoading false]
        ++ initMap librariesLoaded (geometryLocation r) (resultAddress r) st
    | Fulfilled _ =>
        [SetError (Some (notFoundTryMessage (address st)));
         SetIsLoading false]
    | Rejected err =>
        [SetError (Some (show3DViewError (address st) err));
         SetIsLoading false]
    end.

(** Lines 188 to 198: the image to process, with the steps taken to get
    it.  The cached capture is used when there is a painting and a
    capture; otherwise the view is captured and the capture is cached. *)
Definition imageToProcess (canvas : Settled JsString) (st : AppState)
  : Settled JsString * list Op :=
  let isRerunning := truthy (watercolourPainting st) in
  if isRerunning && truthy (capturedMapImage st)
  then (Fulfilled (capturedMapImage st), [])
  else
    match captureMapView canvas st with
    | Fulfilled newImageDataUrl =>
        (Fulfilled newImageDataUrl,
         [CaptureMapView; SetCapturedMapImage newImageDataUrl])
    | Rejected err => (Rejected err, [CaptureMapView])
    end.

(** Lines 202 to 206: the [catch] block. *)
Definition generateFailed (err : Thrown) : list Op :=
  [ SetError (Some match err with
                   | ErrorObject message => message
                   | OtherValue _ => paintingFailedMessage
                   end);
    SetWatercolourPainting [];
    SetCapturedMapImage [] ].

(** Lines 181 to 210 *)
Definition handleGenerateWatercolour (canvas : Settled JsString)
           (rt : Runtime) (st : AppState) : list Op :=
  [SetIsGeneratingPainting true; SetError None]
  ++ (let (image, captureOps) := imageToProcess canvas st in
      captureOps ++
      match image with
      | Fulfilled imageDataUrl =>
          let (result, trace) :=
            generateWatercolourPainting rt imageDataUrl in
          GeneratePainting imageDataUrl trace ::
          match result with
          | Fulfilled paintingDataUrl =>
              [SetWatercolourPainting paintingDataUrl]
          | Rejected err => generateFailed err
          end
      | Rejected err => generateFailed err
      end)
  ++ [SetIsGeneratingPainting false].

(** Lines 212 to 215 *)
Definition handleBackToMap : list Op :=
  [SetWatercolourPainting []; SetCapturedMapImage []].

(** The class of line 222: what is kept of the address in a file name. *)
Definition isSafeChar (c : CodeUnit) : bool :=
  ((97 <=? c) && (c <=? 122) || (65 <=? c) && (c <=? 90)
   || (48 <=? c) && (c <=? 57) || (19968 <=? c) && (c <=? 40869))%N.

(** Lines 217 to 227 *)
Definition handleDownloadPainting (st : AppState) : list Op :=
  if negb (truthy (watercolourPainting st)) then []
  else
    let safeAddress :=
      map (fun c => if isSafeChar c then c else 95%N) (address st) in
    [Download (watercolourPainting st)
              (lit "水彩畫_"
               ++ (if truthy safeAddress then safeAddress
                   else lit "painting")
               ++ lit ".png")].

(** *** The component as a machine driven by events *)

Inductive UiEvent :=
| AddressInput (value : JsString)
| PlaceChanged (place : PlaceResult) (librariesLoaded : bool)
| Show3DView (geocode : Settled (option (list GeocoderResult)))
             (librariesLoaded : bool)
| GenerateWatercolour (canvas : Settled JsString) (rt : Runtime)
| BackToMap
| DownloadPainting
| PlaceholderTick.

Definition handle (ev : UiEvent) (st : AppState) : list Op :=
  match ev with
  | AddressInput value => [SetAddress value]
  | PlaceChanged place librariesLoaded =>
      placeChanged place librariesLoaded st
  | Show3DView geocode librariesLoaded =>
      handleShow3DView geocode librariesLoaded st
  | GenerateWatercolour canvas rt => handleGenerateWatercolour canvas rt st
  | BackToMap => handleBackToMap
  | DownloadPainting => handleDownloadPainting st
  | PlaceholderTick => rotatePlaceholder st
  end.

Definition step (st : AppState) (ev : UiEvent) : AppState :=
  run st (handle ev st).

Definition steps (st : AppState) (evs : list UiEvent) : AppState :=
  fold_left step evs st.

Definition isGenerate (ev : UiEvent) : bool :=
  match ev with
  | GenerateWatercolour _ _ => true
  | _ => false
  end.

(** *** Reading the steps of a handler *)

Fixpoint captures (ops : list Op) : nat :=
  match ops with
  | [] => 0
  | CaptureMapView :: ops' => S (captures ops')
  | _ :: ops' => captures ops'
  end.

(** The images handed to the painting generator. *)
Fixpoint generated (ops : list Op) : list JsString :=
  match ops with
  | [] => []
  | GeneratePainting imageDataUrl _ :: ops' =>
      imageDataUrl :: generated ops'
  | _ :: ops' => generated ops'
  end.

(** *** The phases of the specification, read off what is rendered
    (lines 275 to 319): the overlay while generating, the painting when
    there is one, the map once initialized, the placeholder text
    before. *)
Inductive PipelinePhase := NoView | ViewReady | Generating | ResultReady.

Definition phase (st : AppState) : PipelinePhase :=
  if isGeneratingPainting st then Generating
  else if truthy (watercolourPainting st) then ResultReady
  else if mapInitialized st then ViewReady
  else NoView.

(** The event resolves a location and [initMap] renders a view for it:
    the map [div] is mounted, the libraries load, and the place or the
    first geocoder result gives a location and an address. *)
Definition rendersLocation (ev : UiEvent) (st : AppState) : bool :=
  mapRef st &&
  match ev with
  | PlaceChanged place librariesLoaded =>
      librariesLoaded &&
      match placeLocation place, formatted_address place with
      | Some _, Some formattedAddr => truthy formattedAddr
      | _, _ => false
      end
  | Show3DView (Fulfilled (Some (_ :: _))) librariesLoaded =>
      librariesLoaded && truthy (trim (address st))
  | _ => false
  end.

(** What holds of the state between two events. *)
Definition Quiescent (st : AppState) : Prop :=
  isGeneratingPainting st = false /\
  truthy (capturedMapImage st) = truthy (watercolourPainting st).

End Component.

Arguments SetAddress {LatLngLiteral} v.
Arguments SetError {LatLngLiteral} v.
Arguments SetIsLoading {LatLngLiteral} v.
Arguments SetMapInitialized {LatLngLiteral} v.
Arguments SetIsGeneratingPainting {LatLngLiteral} v.
Arguments SetWatercolourPainting {LatLngLiteral} v.
Arguments SetCapturedMapImage {LatLngLiteral} v.
Arguments SetPlaceholder {LatLngLiteral} v.
Arguments CaptureMapView {LatLngLiteral}.
Arguments GeneratePainting {LatLngLiteral} imageDataUrl trace.
Arguments Download {LatLngLiteral} href filename.
Arguments AddressInput {LatLngLiteral} value.
Arguments GenerateWatercolour {LatLngLiteral} canvas rt.
Arguments BackToMap {LatLngLiteral}.
Arguments DownloadPainting {LatLngLiteral}.
Arguments PlaceholderTick {LatLngLiteral}.
Arguments initialState {LatLngLiteral}.
Arguments handleBackToMap {LatLngLiteral}.
Arguments generateFailed {LatLngLiteral} err.

End App.

(* ================================================================= *)
(** ** Concrete runs *)

Module Scenarios.
Import GeminiService.

(** The wording of V8 for a property read on [undefined]. *)
Definition v8TypeError (property : JsString) : JsString :=
  lit "Cannot read properties of undefined (reading '" ++ property ++ lit "')".

(** A remote service that answers the successive calls with the outcomes
    of [script], and with [rest] once the script is over. *)
Definition scripted (script : list (Settled GenerateContentResponse))
           (rest : Settled GenerateContentResponse) : Runtime :=
  {| generateContent :=
       fun attempt _ => nth (Z.to_nat (attempt - 1)) script rest;
     typeErrorMessage := v8TypeError |}.

(** A remote service that answers every call with [r]. *)
Definition always (r : Settled GenerateContentResponse) : Runtime :=
  {| generateContent := fun _ _ => r; typeErrorMessage := v8TypeError |}.

(** A response with one part of inline data. *)
Definition imageResponse (mimeType data : option JsString)
  : GenerateContentResponse :=
  {| candidates :=
       Some [ {| content :=
                   Some {| parts :=
                             Some [ {| inlineData :=
                                         Some {| mimeType := mimeType;
                                                 data := data |};
                                       partText := None |} ] |} |} ];
     text := None |}.

(** A response with one part of text. *)
Definition textResponse (t : JsString) : GenerateContentResponse :=
  {| candidates :=
       Some [ {| content :=
                   Some {| parts :=
                             Some [ {| inlineData := None;
                                       partText := Some t |} ] |} |} ];
     text := Some t |}.

(** A response with neither parts nor text. *)
Definition emptyResponse : GenerateContentResponse :=
  {| candidates := None; text := None |}.

Definition pngUrl : JsString := lit "data:image/png;base64,iVBORw0KG".
Definition pngRequest : GenerateContentParameters :=
  request (lit "image/png") (lit "iVBORw0KG").

Definition painting : GenerateContentResponse :=
  imageResponse (Some (lit "image/png")) (Some (lit "UGFpbnRpbmc")).
Definition paintingUrl : JsString := lit "data:image/png;base64,UGFpbnRpbmc".

(** An [Error] of the SDK for a server-side failure. *)
Definition serverErrorText : JsString :=
  lit "{" ++ dquote ++ lit "error" ++ dquote ++ lit ":{"
  ++ code500 ++ lit "," ++ dquote ++ lit "status" ++ dquote
  ++ lit ":" ++ dquote ++ lit "INTERNAL" ++ dquote ++ lit "}}".
Definition serverError : Thrown := ErrorObject serverErrorText.

(** A thrown value that is not an [Error], with its JSON text. *)
Definition serverErrorValue : Thrown :=
  OtherValue (Some (lit "{" ++ code500 ++ lit "}")).

(** An [Error] of the SDK for a refused key. *)
Definition keyError : Thrown :=
  ErrorObject (lit "API key not valid. Please pass a valid API key.").

Definition alwaysServerError : Runtime := always (Rejected serverError).
Definition alwaysServerErrorValue : Runtime :=
  always (Rejected serverErrorValue).
Definition alwaysPainting : Runtime := always (Fulfilled painting).
Definition twiceServerError : Runtime :=
  scripted [Rejected serverError; Rejected serverError] (Fulfilled painting).
Definition alwaysKeyError : Runtime := always (Rejected keyError).

(** The model answers in prose, and the prose holds the word INTERNAL. *)
Definition alwaysInternalProse : Runtime :=
  always (Fulfilled (textResponse (lit "INTERNAL"))).

Definition alwaysProse : Runtime :=
  always (Fulfilled (textResponse (lit "I cannot paint this."))).

(** The model answers with inline data that is no image and is empty. *)
Definition alwaysPlainText : Runtime :=
  always (Fulfilled (imageResponse (Some (lit "text/plain")) (Some []))).

(** *** Runs of the component *)

Import App.

(** Coordinates in millionths of a degree. *)
Definition Coordinates : Type := (Z * Z)%type.
Definition eiffelTower : Coordinates := (48858370, 2294481)%Z.

Definition eiffelResult : GeocoderResult Coordinates :=
  {| geometryLocation := eiffelTower;
     resultAddress := lit "Av. Gustave Eiffel, 75007 Paris, France" |}.

(** The address is typed and submitted, and the geocoder resolves it. *)
Definition submitEiffel : list (UiEvent Coordinates) :=
  [ AddressInput (lit "Eiffel Tower, Paris");
    Show3DView (Fulfilled (Some [eiffelResult])) true ].

Definition viewReady : AppState Coordinates := steps initialState submitEiffel.

(** The painting is then generated from a capture of the view. *)
Definition resultReady : AppState Coordinates :=
  step viewReady (GenerateWatercolour (Fulfilled pngUrl) alwaysPainting).

(** Another capture, as the canvas would give it on a later call. *)
Definition otherCapture : JsString := lit "data:image/png;base64,b3RoZXI".

(** Another place, chosen from the suggestions of the address field. *)
Definition louvre : Coordinates := (48860611, 2337644)%Z.

Definition louvrePlace : PlaceResult Coordinates :=
  {| placeLocation := Some louvre;
     formatted_address := Some (lit "Rue de Rivoli, 75001 Paris, France") |}.

(** *** Responses with more than one part or candidate *)

Definition pngPart : Part :=
  {| inlineData := Some {| mimeType := Some (lit "image/png");
                           data := Some (lit "AAAA") |};
     partText := None |}.

Definition jpegPart : Part :=
  {| inlineData := Some {| mimeType := Some (lit "image/jpeg");
                           data := Some (lit "BBBB") |};
     partText := None |}.

Definition prosePart : Part :=
  {| inlineData := None; partText := Some (lit "Here is your painting.") |}.

(** One candidate with two images. *)
Definition twoImages : GenerateContentResponse :=
  {| candidates :=
       Some [ {| content := Some {| parts := Some [pngPart; jpegPart] |} |} ];
     text := None |}.

(** Prose in the first candidate, the image in the second. *)
Definition imageInSecondCandidate : GenerateContentResponse :=
  {| candidates :=
       Some [ {| content := Some {| parts := Some [prosePart] |} |};
              {| content := Some {| parts := Some [jpegPart] |} |} ];
     text := Some (lit "Here is your painting.") |}.

(** Prose first, then the image, in one candidate. *)
Definition proseThenImage : GenerateContentResponse :=
  {| candidates :=
       Some [ {| content := Some {| parts := Some [prosePart; jpegPart] |} |} ];
     text := Some (lit "Here is your painting.") |}.

End Scenarios.

(* ================================================================= *)
(** ** Notions for the properties of the whole component *)

Module Notions.
Import GeminiService App.

(** Whether a cell of a reference holds something. *)
Definition defined (A : Type) (o : option A) : bool :=
  match o with
  | Some _ => true
  | None => false
  end.

(** A code unit that may stand in a file name: one of the class of line 222,
    or the underscore that replaces the others. *)
Definition isFileNameChar (c : CodeUnit) : bool :=
  isSafeChar c || (c =? 95)%N.

Section Component.

Variable LatLngLiteral : Type.

(** The number of ticks of the placeholder interval among the events. *)
Fixpoint ticks (evs : list (UiEvent LatLngLiteral)) : nat :=
  match evs with
  | [] => 0
  | PlaceholderTick :: evs' => S (ticks evs')
  | _ :: evs' => ticks evs'
  end.

(** The location and the address that an event hands to [initMap], when its
    handler gets there. *)
Definition resolved (ev : UiEvent LatLngLiteral)
  : option (LatLngLiteral * JsString) :=
  match ev with
  | PlaceChanged place _ =>
      match placeLocation place, formatted_address place with
      | Some location, Some formattedAddr => Some (location, formattedAddr)
      | _, _ => None
      end
  | Show3DView (Fulfilled (Some (r :: _))) _ =>
      Some (geometryLocation r, resultAddress r)
  | _ => None
  end.

(** The remote calls made by the generator runs among the steps. *)
Fixpoint remoteCalls (ops : list (Op LatLngLiteral)) : nat :=
  match ops with
  | [] => 0
  | GeneratePainting _ trace :: ops' => (calls trace + remoteCalls ops')%nat
  | _ :: ops' => remoteCalls ops'
  end.

(** *** Handlers that overlap

    The handlers are asynchronous, and only the generation button is
    disabled while a painting is generated: the address field, its search
    button and the suggestions stay enabled (lines 252, 263 and 116).  So a
    search can be handled while [handleGenerateWatercolour] is suspended at
    one of its two awaits: the capture of the view (line 195) and the call
    of the painting generator (line 200).  [App.steps] is the case in which
    no handler starts before the one before it has ended. *)

Definition isCaptureCall (op : Op LatLngLiteral) : bool :=
  match op with
  | CaptureMapView => true
  | _ => false
  end.

Definition isGeneratorCall (op : Op LatLngLiteral) : bool :=
  match op with
  | GeneratePainting _ _ => true
  | _ => false
  end.

(** The steps of a handler up to and including the first call of the kind
    [await], where the handler is suspended, and the steps it takes when it
    is resumed. *)
Fixpoint splitAfter (await : Op LatLngLiteral -> bool)
         (ops : list (Op LatLngLiteral))
  : list (Op LatLngLiteral) * list (Op LatLngLiteral) :=
  match ops with
  | [] => ([], [])
  | op :: ops' =>
      if await op then ([op], ops')
      else let (taken, left) := splitAfter await ops' in (op :: taken, left)
  end.

(** The state after the handler [first] has started in [st], the handler
    [second] has run to its end while [first] was suspended at [await], and
    [first] has then run to its end.  The steps of [first] are those fixed
    when it started: after an await it reads no cell again.  [second] starts
    from the state that [first] left when it was suspended. *)
Definition overlapped (st : AppState LatLngLiteral)
           (first : AppState LatLngLiteral -> list (Op LatLngLiteral))
           (await : Op LatLngLiteral -> bool)
           (second : AppState LatLngLiteral -> list (Op LatLngLiteral))
  : AppState LatLngLiteral :=
  let (taken, left) := splitAfter await (first st) in
  run (run (run st taken) (second (run st taken))) left.

(** What holds of every state the component is in between two events. *)
Definition Consistent (st : AppState LatLngLiteral) : Prop :=
  isGeneratingPainting st = false /\
  isLoading st = false /\
  mapRef st = true /\
  truthy (capturedMapImage st) = truthy (watercolourPainting st) /\
  defined (mapInstanceRef st) = mapInitialized st /\
  defined (markerInstanceRef st) = mapInitialized st /\
  (truthy (watercolourPainting st) = true -> mapInitialized st = true) /\
  (truthy (capturedMapImage st) = true ->
   exists m p, matchDataUrl (capturedMapImage st) = Some (m, p)) /\
  (truthy (watercolourPainting st) = true ->
   startsWith (lit "data:") (watercolourPainting st) = true).

End Component.

(** *** Runs with an overlap *)

Import Scenarios.

(** The painting of the view of the Eiffel tower is requested; while the
    capture of the view is awaited, the Louvre is chosen from the
    suggestions and rendered; the capture then resolves and the painting is
    generated. *)
Definition recentredWhileCapturing : AppState Coordinates :=
  overlapped viewReady
             (handleGenerateWatercolour (Fulfilled pngUrl) alwaysPainting)
             (@isCaptureCall Coordinates)
             (handle (PlaceChanged louvrePlace true)).

(** The same, the Louvre being chosen while the painting generator is
    awaited. *)
Definition recentredWhileGenerating : AppState Coordinates :=
  overlapped viewReady
             (handleGenerateWatercolour (Fulfilled pngUrl) alwaysPainting)
             (@isGeneratorCall Coordinates)
             (handle (PlaceChanged louvrePlace true)).

End Notions.

(* ================================================================= *)
(** ** Facts about strings *)

Module JsFacts.

Example lit_ascii : lit "data:" = [100; 97; 116; 97; 58]%N.
Proof. reflexivity. Qed.

Example lit_cjk : lit "模型。" = [27169; 22411; 12290]%N.
Proof. reflexivity. Qed.

Example number_3 : numberToString 3 = lit "3".
Proof. reflexivity. Qed.

Lemma stripPrefix_spec (p s r : JsString) :
  stripPrefix p s = Some r <-> s = p ++ r.
Proof.
  revert s; induction p as [|a p IH]; intros s; cbn [stripPrefix app].
  - split; congruence.
  - destruct s as [|c s].
    + split; discriminate.
    + destruct (N.eqb_spec a c) as [->|Hne].
      * rewrite IH. split; congruence.
      * split; [discriminate | intros [= E _]; congruence].
Qed.

Lemma stripPrefix_app (p r : JsString) : stripPrefix p (p ++ r) = Some r.
Proof. now apply stripPrefix_spec. Qed.

Lemma startsWith_spec (p s : JsString) :
  startsWith p s = true <-> exists r, s = p ++ r.
Proof.
  revert s; induction p as [|a p IH]; intros s; cbn [startsWith app].
  - split; eauto.
  - destruct s as [|c s].
    + split; [discriminate | intros [r [=]]].
    + rewrite andb_true_iff, N.eqb_eq, IH. split.
      * intros [-> [r ->]]. now exists r.
      * intros [r [= -> ->]]. eauto.
Qed.

(** [includes] finds exactly the substrings. *)
Lemma includes_spec (s needle : JsString) :
  includes s needle = true <->
  exists before after, s = before ++ needle ++ after.
Proof.
  induction s as [|c s IH]; cbn [includes]; rewrite orb_true_iff.
  - rewrite startsWith_spec. split.
    + intros [[r ->]|[=]]. now exists [], r.
    + intros (b & a & E). left. destruct b; [now exists a|discriminate].
  - rewrite startsWith_spec, IH. split.
    + intros [[r ->]|(b & a & ->)]; [now exists [], r | now exists (c :: b), a].
    + intros (b & a & E). destruct b as [|c' b]; [left; now exists a|].
      right. injection E as -> ->. now exists b, a.
Qed.

Lemma includes_app_r (a s needle : JsString) :
  includes s needle = true -> includes (a ++ s) needle = true.
Proof.
  rewrite !includes_spec. intros (b & c & ->).
  exists (a ++ b), c. now rewrite app_assoc.
Qed.

Lemma includes_app_l (s a needle : JsString) :
  includes s needle = true -> includes (s ++ a) needle = true.
Proof.
  rewrite !includes_spec. intros (b & c & ->).
  exists b, (c ++ a). now rewrite <- !app_assoc.
Qed.

Lemma span_spec (f : CodeUnit -> bool) (s w r : JsString) :
  span f s = (w, r) <-> s = w ++ r /\ forallb f w = true /\ stopsAt f r.
Proof.
  revert w r; induction s as [|c s IH]; intros w r; cbn [span].
  - split.
    + intros [= <- <-]. cbn. auto.
    + intros (E & _ & _). symmetry in E. apply app_eq_nil in E as [-> ->].
      reflexivity.
  - destruct (f c) eqn:Hc.
    + destruct (span f s) as [w' r'] eqn:Es. split.
      * intros [= <- <-]. destruct (proj1 (IH w' r') eq_refl) as (-> & Hw & Hr).
        cbn. rewrite Hc, Hw. auto.
      * intros (E & Hw & Hr). destruct w as [|c' w].
        -- cbn in E. subst r. cbn in Hr. congruence.
        -- injection E as <- ->. cbn in Hw. rewrite Hc in Hw. cbn in Hw.
           assert (E' : (w', r') = (w, r)) by (apply IH; auto).
           now injection E' as -> ->.
    + split.
      * intros [= <- <-]. cbn. auto.
      * intros (E & Hw & Hr). destruct w as [|c' w].
        -- cbn in E. now subst r.
        -- injection E as <- ->. cbn in Hw. rewrite Hc in Hw. discriminate.
Qed.

Lemma truthy_nonempty (s : JsString) : truthy s = true <-> s <> [].
Proof. destruct s; cbn; split; congruence. Qed.

End JsFacts.

(* ================================================================= *)
(** ** Facts about the painting generator *)

Module GeminiServiceFacts.
Import GeminiService JsFacts.

(** *** The input pattern *)

(** [matchDataUrl] accepts exactly the language of the pattern and gives
    its captures. *)
Lemma matchDataUrl_spec (s m p : JsString) :
  matchDataUrl s = Some (m, p) <-> DataUrlForm s m p.
Proof.
  unfold matchDataUrl, DataUrlForm. split.
  - destruct (stripPrefix (lit "data:") s) as [r1|] eqn:E1; [|discriminate].
    destruct (stripPrefix (lit "image/") r1) as [r2|] eqn:E2; [|discriminate].
    destruct (span isWordChar r2) as [w r3] eqn:E3.
    destruct (truthy w) eqn:Ew; [|discriminate].
    destruct (stripPrefix (lit ";base64,") r3) as [payload|] eqn:E4;
      [|discriminate].
    destruct (forallb isDot payload) eqn:E5; [|discriminate].
    intros [= <- <-].
    apply stripPrefix_spec in E1, E2, E4.
    apply span_spec in E3 as (E3 & Hw & _).
    exists w. repeat split; auto.
    + now apply truthy_nonempty.
    + subst. reflexivity.
  - intros (w & Hne & Hw & -> & Hp & ->).
    rewrite stripPrefix_app.
    rewrite <- !app_assoc, stripPrefix_app.
    assert (E3 : span isWordChar (w ++ lit ";base64," ++ p)
                 = (w, lit ";base64," ++ p)).
    { apply span_spec. repeat split; auto. }
    rewrite E3.
    apply truthy_nonempty in Hne. rewrite Hne.
    rewrite stripPrefix_app, Hp. reflexivity.
Qed.

Lemma matchDataUrl_None (s : JsString) :
  matchDataUrl s = None <-> forall m p, ~ DataUrlForm s m p.
Proof.
  split.
  - intros E m p H. apply matchDataUrl_spec in H. congruence.
  - intros H. destruct (matchDataUrl s) as [[m p]|] eqn:E; [|reflexivity].
    apply matchDataUrl_spec in E. now apply H in E.
Qed.

Example match_png :
  matchDataUrl (lit "data:image/png;base64,iVBORw0KG")
  = Some (lit "image/png", lit "iVBORw0KG").
Proof. reflexivity. Qed.

Example match_empty_payload :
  matchDataUrl (lit "data:image/png;base64,") = Some (lit "image/png", []).
Proof. reflexivity. Qed.

Example match_svg :
  matchDataUrl (lit "data:image/svg+xml;base64,PHN2Zy8+") = None.
Proof. reflexivity. Qed.

Example match_uppercase_scheme :
  matchDataUrl (lit "DATA:image/png;base64,AAAA") = None.
Proof. reflexivity. Qed.

Example match_line_feed :
  matchDataUrl (lit "data:image/png;base64,AA" ++ [10%N] ++ lit "AA") = None.
Proof. reflexivity. Qed.

(** *** The loop *)

Section Loop.

Variable rt : Runtime.
Variable req : GenerateContentParameters.

(** One iteration, while [attempt <= maxRetries]. *)
Lemma loopFrom_step (attempt : Z) :
  (attempt <= maxRetries)%Z ->
  loopFrom rt req attempt =
  match tryBlock rt req attempt with
  | Fulfilled url => (Fulfilled url, [Call req])
  | Rejected error =>
      match catchBlock rt attempt error with
      | Retry delay =>
          let (r, tr) := loopFrom rt req (attempt + 1) in
          (r, Call req :: Sleep delay :: tr)
      | Throw e => (Rejected e, [Call req])
      end
  end.
Proof.
  intros Hle. unfold loopFrom.
  replace (Z.to_nat (maxRetries + 1 - attempt))
    with (S (Z.to_nat (maxRetries + 1 - (attempt + 1)))) by lia.
  reflexivity.
Qed.

(** The exit of the loop, when [attempt <= maxRetries] fails. *)
Lemma loopFrom_exit (attempt : Z) :
  (maxRetries < attempt)%Z ->
  loopFrom rt req attempt = (Rejected (ErrorObject afterAllRetriesMessage), []).
Proof.
  intros Hlt. unfold loopFrom.
  replace (Z.to_nat (maxRetries + 1 - attempt)) with 0%nat by lia.
  reflexivity.
Qed.

(** The [catch] block asks for a retry exactly for a marked description
    below the cap, and then with the exponential delay. *)
Lemma catchBlock_Retry (attempt : Z) (error : Thrown) (delay : Z) :
  catchBlock rt attempt error = Retry delay <->
  hasInternalMarker error = true /\ (attempt < maxRetries)%Z
  /\ delay = backoffDelay attempt.
Proof.
  unfold catchBlock, hasInternalMarker.
  destruct (errorMessage error) as [msg|].
  - destruct (isInternalError msg); cbn [andb].
    + destruct (Z.ltb_spec attempt maxRetries).
      * split; [intros [= <-]; auto | intros (_ & _ & ->); reflexivity].
      * split; [discriminate | intros (_ & ? & _); lia].
    + split; [discriminate | intros ([=] & _)].
  - split; [discriminate | intros ([=] & _)].
Qed.

Lemma catchBlock_retry (attempt : Z) (error : Thrown) :
  hasInternalMarker error = true -> (attempt < maxRetries)%Z ->
  catchBlock rt attempt error = Retry (backoffDelay attempt).
Proof. intros. now apply catchBlock_Retry. Qed.

(** Otherwise it throws: the wrapped error, or the [TypeError] of a
    description that is [undefined]. *)
Lemma catchBlock_Throw (attempt : Z) (error : Thrown) :
  hasInternalMarker error && (attempt <? maxRetries)%Z = false ->
  catchBlock rt attempt error =
  Throw match errorMessage error with
        | Some _ => wrapError attempt error
        | None => ErrorObject (typeErrorMessage rt (lit "includes"))
        end.
Proof.
  unfold catchBlock, hasInternalMarker.
  destruct (errorMessage error) as [msg|]; [|reflexivity].
  now intros ->.
Qed.

Lemma catchBlock_last (error : Thrown) :
  hasInternalMarker error = true ->
  catchBlock rt maxRetries error = Throw (wrapError maxRetries error).
Proof.
  intros H. rewrite catchBlock_Throw.
  - unfold hasInternalMarker in H. now destruct (errorMessage error).
  - now rewrite H.
Qed.

(** A retried iteration in the loop. *)
Lemma loopFrom_retried (attempt : Z) (error : Thrown) :
  (attempt < maxRetries)%Z ->
  RetryableFailure rt req attempt error ->
  loopFrom rt req attempt =
  let (r, tr) := loopFrom rt req (attempt + 1) in
  (r, Call req :: Sleep (backoffDelay attempt) :: tr).
Proof.
  intros Hlt [Htry Hm]. rewrite loopFrom_step by lia.
  now rewrite Htry, catchBlock_retry.
Qed.

(** The loop entered at the first iteration, when the iterations before
    [attempt] are all retried. *)
Lemma loopFrom_retried_until (attempt : Z) :
  (1 <= attempt <= maxRetries)%Z ->
  (forall j, (1 <= j < attempt)%Z ->
             exists e, RetryableFailure rt req j e) ->
  loopFrom rt req 1 =
  let (r, tr) := loopFrom rt req attempt in
  (r, retriedFrom req 1 (Z.to_nat (attempt - 1)) ++ tr).
Proof.
  intros Hr H.
  assert (Hk : attempt = 1%Z \/ attempt = 2%Z \/ attempt = 3%Z)
    by (unfold maxRetries in Hr; lia).
  destruct Hk as [->|[->| ->]].
  - change (retriedFrom req 1 (Z.to_nat (1 - 1))) with (@nil Event).
    now destruct (loopFrom rt req 1).
  - destruct (H 1%Z ltac:(lia)) as [e1 H1].
    rewrite (loopFrom_retried (attempt:=1) (error:=e1)) by (cbv; auto).
    change (1 + 1)%Z with 2%Z.
    change (retriedFrom req 1 (Z.to_nat (2 - 1)))
      with [Call req; Sleep (backoffDelay 1)].
    now destruct (loopFrom rt req 2).
  - destruct (H 1%Z ltac:(lia)) as [e1 H1].
    destruct (H 2%Z ltac:(lia)) as [e2 H2].
    rewrite (loopFrom_retried (attempt:=1) (error:=e1)) by (cbv; auto).
    change (1 + 1)%Z with 2%Z.
    rewrite (loopFrom_retried (attempt:=2) (error:=e2)) by (cbv; auto).
    change (2 + 1)%Z with 3%Z.
    change (retriedFrom req 1 (Z.to_nat (3 - 1)))
      with [Call req; Sleep (backoffDelay 1);
            Call req; Sleep (backoffDelay 2)].
    now destruct (loopFrom rt req 3).
Qed.

(** The response of iteration [attempt] carries an image: the loop ends
    there. *)
Lemma tryBlock_image (attempt : Z) (response : GenerateContentResponse)
      (ps : list Part) (p : Part) (blob : Blob) :
  generateContent rt attempt req = Fulfilled response ->
  firstCandidateParts response = Some ps ->
  FirstInlinePart ps p blob ->
  imagePartFromResponse response = Some blob.
Proof.
  intros _ Hps (before & after & -> & Hb & Hp).
  unfold imagePartFromResponse. rewrite Hps.
  assert (E : find hasInlineData (before ++ p :: after) = Some p).
  { clear Hps. induction before as [|q before IH]; cbn [app find].
    - unfold hasInlineData at 1. now rewrite Hp.
    - cbn [forallb] in Hb. apply andb_true_iff in Hb as [Hq Hb].
      apply negb_true_iff in Hq. rewrite Hq. auto. }
  now rewrite E.
Qed.

End Loop.

Lemma generate_loop (rt : Runtime) (s m p : JsString) :
  matchDataUrl s = Some (m, p) ->
  generateWatercolourPainting rt s = loopFrom rt (request m p) 1.
Proof. unfold generateWatercolourPainting. now intros ->. Qed.

(** What a fulfilled [try] block returns. *)
Lemma tryBlock_Fulfilled (rt : Runtime) (req : GenerateContentParameters)
      (attempt : Z) (url : JsString) :
  tryBlock rt req attempt = Fulfilled url ->
  exists response blob d,
    generateContent rt attempt req = Fulfilled response /\
    imagePartFromResponse response = Some blob /\
    data blob = Some d /\
    url = dataUrl (display (mimeType blob)) d.
Proof.
  unfold tryBlock.
  destruct (generateContent rt attempt req) as [response|e]; [|discriminate].
  destruct (imagePartFromResponse response) as [blob|] eqn:Eb; [|discriminate].
  destruct (data blob) as [d|] eqn:Ed; [|discriminate].
  intros [= <-]. now exists response, blob, d.
Qed.

(** Every run ends with a data URL built from a response, or with one of
    the failures of [GenerationFailure]; the statement after the loop is
    never reached. *)
Lemma attemptLoop_outcome (rt : Runtime) (req : GenerateContentParameters) :
  forall (remaining : nat) (attempt : Z),
    Z.of_nat remaining = (maxRetries + 1 - attempt)%Z ->
    (1 <= attempt)%Z -> (1 <= remaining)%nat ->
    match attemptLoop rt req remaining attempt with
    | (Fulfilled url, _) =>
        exists attempt' response blob d,
          (1 <= attempt' <= maxRetries)%Z /\
          generateContent rt attempt' req = Fulfilled response /\
          imagePartFromResponse response = Some blob /\
          data blob = Some d /\
          url = dataUrl (display (mimeType blob)) d
    | (Rejected e, _) => GenerationFailure rt e
    end.
Proof.
  induction remaining as [|remaining IH]; intros attempt Hrem H1 Hpos; [lia|].
  cbn [attemptLoop].
  destruct (tryBlock rt req attempt) as [url|error] eqn:Htry.
  - apply tryBlock_Fulfilled in Htry as (response & blob & d & ? & ? & ? & ?).
    exists attempt, response, blob, d. repeat split; auto; lia.
  - destruct (catchBlock rt attempt error) as [delay|e] eqn:Hc.
    + apply catchBlock_Retry in Hc as (_ & Hlt & _).
      specialize (IH (attempt + 1)%Z ltac:(lia) ltac:(lia) ltac:(lia)).
      destruct (attemptLoop rt req remaining (attempt + 1)) as [[url|e] tr];
        exact IH.
    + unfold catchBlock in Hc.
      destruct (errorMessage error) as [msg|].
      * destruct (isInternalError msg && (attempt <? maxRetries)%Z);
          [discriminate|].
        injection Hc as <-. apply FailedAfter. lia.
      * injection Hc as <-. apply DescriptionUndefined.
Qed.

(** No run makes more calls than the cap. *)
Lemma attemptLoop_calls (rt : Runtime) (req : GenerateContentParameters) :
  forall (remaining : nat) (attempt : Z),
    (calls (snd (attemptLoop rt req remaining attempt)) <= remaining)%nat.
Proof.
  induction remaining as [|remaining IH]; intros attempt; cbn [attemptLoop].
  - cbn. lia.
  - destruct (tryBlock rt req attempt); [cbn; lia|].
    destruct (catchBlock rt attempt e); [|cbn; lia].
    specialize (IH (attempt + 1)%Z).
    destruct (attemptLoop rt req remaining (attempt + 1)) as [r tr].
    cbn in *. lia.
Qed.

Lemma generate_calls (rt : Runtime) (s : JsString) :
  (calls (snd (generateWatercolourPainting rt s)) <= 3)%nat.
Proof.
  unfold generateWatercolourPainting.
  destruct (matchDataUrl s) as [[m p]|]; [|cbn; lia].
  apply (attemptLoop_calls rt (request m p) 3 1).
Qed.

(** A well-formed MIME type and payload give a well-formed data URL. *)
Lemma wellFormed_dataUrl (w d : JsString) :
  w <> [] -> forallb isWordChar w = true ->
  d <> [] -> forallb isDot d = true ->
  wellFormedImageBlob (dataUrl (lit "image/" ++ w) d) = true.
Proof.
  intros Hw Hww Hd Hdd. unfold wellFormedImageBlob.
  assert (E : matchDataUrl (dataUrl (lit "image/" ++ w) d)
              = Some (lit "image/" ++ w, d)).
  { apply matchDataUrl_spec. exists w. repeat split; auto. }
  rewrite E. now apply truthy_nonempty.
Qed.

(** Every failure of [GenerationFailure] is an [Error] object. *)
Lemma GenerationFailure_is_error (rt : Runtime) (e : Thrown) :
  GenerationFailure rt e -> exists message, e = ErrorObject message.
Proof.
  intros [|attempt error _|]; [eauto| |eauto].
  destruct error; cbn; eauto.
Qed.

(** A painting that is returned is never the empty string, and the input
    it was made from is not empty either. *)
Lemma generated_painting_truthy (rt : Runtime) (image url : JsString)
      (trace : list Event) :
  generateWatercolourPainting rt image = (Fulfilled url, trace) ->
  truthy url = true /\ truthy image = true.
Proof.
  unfold generateWatercolourPainting.
  destruct (matchDataUrl image) as [[m p]|] eqn:Hm; [|discriminate].
  intros H.
  pose proof (@attemptLoop_outcome rt (request m p) 3 1
                eq_refl ltac:(lia) ltac:(lia)) as G.
  change (Z.to_nat maxRetries) with 3%nat in H. rewrite H in G.
  destruct G as (attempt & response & blob & d & _ & _ & _ & _ & ->).
  split; [reflexivity|].
  destruct image; [discriminate Hm | reflexivity].
Qed.

(** The painting generator only fails with [Error] objects. *)
Lemma generator_rejects_with_error (rt : Runtime) (image : JsString)
      (err : Thrown) (trace : list Event) :
  generateWatercolourPainting rt image = (Rejected err, trace) ->
  exists message, err = ErrorObject message.
Proof.
  unfold generateWatercolourPainting.
  destruct (matchDataUrl image) as [[m p]|] eqn:Hm.
  - intros H.
    pose proof (@attemptLoop_outcome rt (request m p) 3 1
                  eq_refl ltac:(lia) ltac:(lia)) as G.
    change (Z.to_nat maxRetries) with 3%nat in H. rewrite H in G.
    now apply GenerationFailure_is_error in G.
  - intros [= <- _]. eauto.
Qed.

(** *** Properties of the specification *)

Import Scenarios.

(** C1, as amended.  When every attempt of a valid input fails with a
    retryable error, the run makes exactly three calls, waits 1000 ms
    before the second and 2000 ms before the third, waits neither before
    the first nor after the last, and fails with an error that gives the
    attempt count 3; that error carries the message of the last failure
    when the last failure is an [Error] object, and the fixed text
    pointing at the console when it is another value. *)
Theorem exhausted_after_three_attempts
        (rt : Runtime) (s m p : JsString) :
  matchDataUrl s = Some (m, p) ->
  (forall attempt, (1 <= attempt <= maxRetries)%Z ->
                   exists e, RetryableFailure rt (request m p) attempt e) ->
  exists last,
    RetryableFailure rt (request m p) maxRetries last /\
    generateWatercolourPainting rt s =
    (Rejected
       (ErrorObject
          match last with
          | ErrorObject message =>
              lit "AI 模型在嘗試 " ++ numberToString 3
              ++ lit " 次後無法生成圖片。" ++ lit "詳細資訊: " ++ message
          | OtherValue _ =>
              lit "AI 模型在嘗試 " ++ numberToString 3
              ++ lit " 次後無法生成圖片。"
              ++ lit "請查看控制台以獲取更多詳細資訊。"
          end),
     [Call (request m p); Sleep (initialDelay * 2 ^ (1 - 1));
      Call (request m p); Sleep (initialDelay * 2 ^ (2 - 1));
      Call (request m p)]) /\
    (initialDelay * 2 ^ (1 - 1) = 1000)%Z /\
    (initialDelay * 2 ^ (2 - 1) = 2000)%Z.
Proof.
  intros Hm H.
  destruct (H 3%Z ltac:(cbv; split; discriminate)) as [last Hlast].
  exists last. split; [exact Hlast|]. split; [|split; reflexivity].
  rewrite (generate_loop rt s Hm).
  rewrite (@loopFrom_retried_until rt (request m p) 3)
    by (try (cbv; split; discriminate);
        intros j Hj; apply H; unfold maxRetries; lia).
  rewrite loopFrom_step by (cbv; discriminate).
  destruct Hlast as [Htry Hmark]. rewrite Htry.
  change 3%Z with maxRetries at 1.
  rewrite catchBlock_last by exact Hmark.
  unfold wrapError, failedWithDetailMessage, failedSeeConsoleMessage,
    failedAfter.
  destruct last; rewrite <- ?app_assoc; reflexivity.
Qed.

Lemma exhausted_after_three_attempts_witness :
  exists last,
    RetryableFailure alwaysServerError pngRequest maxRetries last /\
    generateWatercolourPainting alwaysServerError pngUrl =
    (Rejected
       (ErrorObject
          match last with
          | ErrorObject message =>
              lit "AI 模型在嘗試 " ++ numberToString 3
              ++ lit " 次後無法生成圖片。" ++ lit "詳細資訊: " ++ message
          | OtherValue _ =>
              lit "AI 模型在嘗試 " ++ numberToString 3
              ++ lit " 次後無法生成圖片。"
              ++ lit "請查看控制台以獲取更多詳細資訊。"
          end),
     [Call pngRequest; Sleep (initialDelay * 2 ^ (1 - 1));
      Call pngRequest; Sleep (initialDelay * 2 ^ (2 - 1));
      Call pngRequest]) /\
    (initialDelay * 2 ^ (1 - 1) = 1000)%Z /\
    (initialDelay * 2 ^ (2 - 1) = 2000)%Z.
Proof.
  apply (@exhausted_after_three_attempts
           alwaysServerError pngUrl (lit "image/png") (lit "iVBORw0KG")).
  - reflexivity.
  - intros attempt _. exists serverError. split; reflexivity.
Defined.

(** C1, as stated, fails.  Three attempts fail with a retryable value that
    is not an [Error] object; the final error then holds neither the
    description of the last failure nor its marker. *)
Lemma exhausted_value_not_wrapped :
  RetryableFailure alwaysServerErrorValue pngRequest 1 serverErrorValue /\
  RetryableFailure alwaysServerErrorValue pngRequest 2 serverErrorValue /\
  RetryableFailure alwaysServerErrorValue pngRequest 3 serverErrorValue /\
  errorMessage serverErrorValue = Some (lit "{" ++ code500 ++ lit "}") /\
  generateWatercolourPainting alwaysServerErrorValue pngUrl =
  (Rejected (ErrorObject (failedSeeConsoleMessage 3)),
   [Call pngRequest; Sleep 1000; Call pngRequest; Sleep 2000;
    Call pngRequest]) /\
  includes (failedSeeConsoleMessage 3) (lit "{" ++ code500 ++ lit "}") = false /\
  includes (failedSeeConsoleMessage 3) code500 = false.
Proof. repeat split; reflexivity. Qed.

(** C2, as amended.  An input that is not of the form
    [data:image/<word characters>;base64,<payload without line terminator>]
    fails at once with the invalid-format error, without any call and
    without any wait; an input of that form, also one with an empty
    payload, passes the validation and the remote call is made with its
    MIME type and payload. *)
Theorem invalid_input_rejected_without_call (rt : Runtime) (s : JsString) :
  ((forall m p, ~ DataUrlForm s m p) ->
   generateWatercolourPainting rt s =
   (Rejected (ErrorObject invalidDataUrlMessage), [])) /\
  (forall m p,
      DataUrlForm s m p ->
      exists r tr,
        generateWatercolourPainting rt s = (r, Call (request m p) :: tr)).
Proof.
  split.
  - intros H. apply matchDataUrl_None in H.
    unfold generateWatercolourPainting. now rewrite H.
  - intros m p H. apply matchDataUrl_spec in H.
    rewrite (generate_loop rt s H), loopFrom_step by (cbv; discriminate).
    destruct (tryBlock rt (request m p) 1) as [url|error]; [eauto|].
    destruct (catchBlock rt 1 error); [|eauto].
    destruct (loopFrom rt (request m p) (1 + 1)) as [r tr]. eauto.
Qed.

Lemma invalid_input_rejected_without_call_witness :
  generateWatercolourPainting alwaysPainting (lit "image/png;base64,iVBORw0KG")
  = (Rejected (ErrorObject invalidDataUrlMessage), []) /\
  exists r tr,
    generateWatercolourPainting alwaysPainting pngUrl
    = (r, Call pngRequest :: tr).
Proof.
  split.
  - apply (proj1 (invalid_input_rejected_without_call
                    alwaysPainting (lit "image/png;base64,iVBORw0KG"))).
    apply matchDataUrl_None. reflexivity.
  - apply (proj2 (invalid_input_rejected_without_call alwaysPainting pngUrl)
                 (lit "image/png") (lit "iVBORw0KG")).
    apply matchDataUrl_spec. reflexivity.
Defined.

(** C2, as stated, fails.  A data URL with an empty payload passes the
    validation: the call is made and the painting is returned. *)
Lemma empty_payload_accepted :
  matchDataUrl (lit "data:image/png;base64,") = Some (lit "image/png", []) /\
  generateWatercolourPainting alwaysPainting (lit "data:image/png;base64,")
  = (Fulfilled paintingUrl, [Call (request (lit "image/png") [])]).
Proof. split; reflexivity. Qed.

(** C3.  When the remote call of an iteration raises an error, the loop
    retries exactly when the description of the error holds one of the
    markers and the iteration is below the cap: it then waits
    [initialDelay * 2 ^ (attempt - 1)] and calls again; otherwise the run
    ends there, without a wait and without another call.  The description
    holds a marker when it includes the text of [code500] or [INTERNAL].
    When the first two calls raise errors whose descriptions include
    [code500] and the third iteration succeeds, the run succeeds after the
    two waits of 1000 ms and 2000 ms. *)
Theorem retry_iff_internal_marker (rt : Runtime) :
  (forall req attempt error,
      (1 <= attempt <= maxRetries)%Z ->
      generateContent rt attempt req = Rejected error ->
      if hasInternalMarker error && (attempt <? maxRetries)%Z
      then exists r tr,
          loopFrom rt req attempt =
          (r, Call req :: Sleep (initialDelay * 2 ^ (attempt - 1))
                :: Call req :: tr)
      else exists e, loopFrom rt req attempt = (Rejected e, [Call req])) /\
  (forall error,
      hasInternalMarker error = true <->
      exists description,
        errorMessage error = Some description /\
        (includes description code500 = true
         \/ includes description INTERNAL = true)) /\
  (forall s m p e1 e2 d1 d2 url,
      matchDataUrl s = Some (m, p) ->
      generateContent rt 1 (request m p) = Rejected e1 ->
      errorMessage e1 = Some d1 -> includes d1 code500 = true ->
      generateContent rt 2 (request m p) = Rejected e2 ->
      errorMessage e2 = Some d2 -> includes d2 code500 = true ->
      tryBlock rt (request m p) 3 = Fulfilled url ->
      generateWatercolourPainting rt s =
      (Fulfilled url,
       [Call (request m p); Sleep 1000; Call (request m p); Sleep 2000;
        Call (request m p)])).
Proof.
  split; [|split].
  - intros req attempt error Hr Hcall.
    assert (Htry : tryBlock rt req attempt = Rejected error)
      by (unfold tryBlock; now rewrite Hcall).
    rewrite loopFrom_step, Htry by lia.
    destruct (hasInternalMarker error && (attempt <? maxRetries)%Z) eqn:E.
    + apply andb_true_iff in E as [Hm Hlt]. apply Z.ltb_lt in Hlt.
      rewrite catchBlock_retry by assumption.
      rewrite loopFrom_step by lia.
      destruct (tryBlock rt req (attempt + 1)) as [url|error']; [eauto|].
      destruct (catchBlock rt (attempt + 1) error'); [|eauto].
      destruct (loopFrom rt req (attempt + 1 + 1)) as [r tr]. eauto.
    + rewrite catchBlock_Throw by assumption. eauto.
  - intros error. unfold hasInternalMarker, isInternalError.
    destruct (errorMessage error) as [msg|].
    + rewrite orb_true_iff. split.
      * intros H. now exists msg.
      * now intros (description & [= <-] & H).
    + split; [discriminate | intros (description & [=] & _)].
  - intros s m p e1 e2 d1 d2 url Hm H1 Hd1 Hi1 H2 Hd2 Hi2 H3.
    assert (R : forall attempt e d,
               generateContent rt attempt (request m p) = Rejected e ->
               errorMessage e = Some d -> includes d code500 = true ->
               RetryableFailure rt (request m p) attempt e).
    { intros attempt e d Hc Hd Hi. split.
      - unfold tryBlock. now rewrite Hc.
      - unfold hasInternalMarker, isInternalError. now rewrite Hd, Hi. }
    rewrite (generate_loop rt s Hm).
    rewrite (@loopFrom_retried_until rt (request m p) 3).
    + rewrite loopFrom_step, H3 by (cbv; discriminate). reflexivity.
    + cbv; split; discriminate.
    + intros j Hj.
      assert (Hc : j = 1%Z \/ j = 2%Z) by lia.
      destruct Hc as [-> | ->]; eauto.
Qed.

Lemma retry_iff_internal_marker_witness :
  hasInternalMarker serverError = true /\
  (exists r tr,
      loopFrom twiceServerError pngRequest 1 =
      (r, Call pngRequest :: Sleep (initialDelay * 2 ^ (1 - 1))
            :: Call pngRequest :: tr)) /\
  (exists e, loopFrom alwaysKeyError pngRequest 1
             = (Rejected e, [Call pngRequest])) /\
  generateWatercolourPainting twiceServerError pngUrl =
  (Fulfilled paintingUrl,
   [Call pngRequest; Sleep 1000; Call pngRequest; Sleep 2000;
    Call pngRequest]).
Proof.
  split; [|split; [|split]].
  - apply (proj1 (proj2 (retry_iff_internal_marker twiceServerError))
                 serverError).
    exists serverErrorText. split; [reflexivity | left; reflexivity].
  - apply (proj1 (retry_iff_internal_marker twiceServerError)
                 pngRequest 1%Z serverError).
    + cbv; split; discriminate.
    + reflexivity.
  - apply (proj1 (retry_iff_internal_marker alwaysKeyError)
                 pngRequest 1%Z keyError).
    + cbv; split; discriminate.
    + reflexivity.
  - apply (proj2 (proj2 (retry_iff_internal_marker twiceServerError))
                 pngUrl (lit "image/png") (lit "iVBORw0KG")
                 serverError serverError)
      with (d1 := serverErrorText) (d2 := serverErrorText); reflexivity.
Defined.

(** A response without an image part whose error text holds no marker
    ends the run at once: one call, no wait, and the error carries the
    text of the response. *)
Lemma text_only_without_marker (rt : Runtime)
      (req : GenerateContentParameters) (attempt : Z)
      (response : GenerateContentResponse) :
  (1 <= attempt <= maxRetries)%Z ->
  generateContent rt attempt req = Fulfilled response ->
  imagePartFromResponse response = None ->
  isInternalError (textInsteadOfImageMessage (text response)) = false ->
  loopFrom rt req attempt =
  (Rejected (ErrorObject
               (failedWithDetailMessage
                  attempt (textInsteadOfImageMessage (text response)))),
   [Call req]).
Proof.
  intros Hr Hc Hi Hm. rewrite loopFrom_step by lia.
  unfold tryBlock. rewrite Hc, Hi.
  rewrite catchBlock_Throw; [reflexivity|].
  unfold hasInternalMarker. cbn [errorMessage]. now rewrite Hm.
Qed.

Example prose_is_fatal :
  generateWatercolourPainting alwaysProse pngUrl =
  (Rejected (ErrorObject
               (failedWithDetailMessage
                  1 (textInsteadOfImageMessage
                       (Some (lit "I cannot paint this."))))),
   [Call pngRequest]).
Proof. reflexivity. Qed.

Example no_text_is_reported :
  generateWatercolourPainting (always (Fulfilled emptyResponse)) pngUrl =
  (Rejected (ErrorObject
               (lit "AI 模型在嘗試 1 次後無法生成圖片。詳細資訊: AI 模型回傳了文字而非圖片: "
                ++ dquote ++ lit "未收到文字回應。" ++ dquote)),
   [Call pngRequest]).
Proof. reflexivity. Qed.

(** C4, the run that departs from it.  The model answers every call in
    prose, without an image, and the prose is the word INTERNAL: the error
    raised for the prose is caught by the [catch] block of the same
    iteration, its text holds a marker, and the run waits and calls again,
    three calls in all. *)
Theorem prose_with_marker_is_retried :
  imagePartFromResponse (textResponse (lit "INTERNAL")) = None /\
  generateWatercolourPainting alwaysInternalProse pngUrl =
  (Rejected (ErrorObject
               (failedWithDetailMessage
                  3 (textInsteadOfImageMessage (Some (lit "INTERNAL"))))),
   [Call pngRequest; Sleep 1000; Call pngRequest; Sleep 2000;
    Call pngRequest]).
Proof. split; reflexivity. Qed.

(** C5, as amended.  When the first candidate of the response of an
    iteration has content whose first part with inline data has MIME type
    [m] and payload [d] (the parts before it carry no inline data), and the
    iterations before it were retried, the run returns
    [data:m;base64,d]; its trace ends with the call that got this response:
    no call and no wait follow.  Inline data of a later part or of another
    candidate is not used. *)
Theorem inline_image_ends_generation
        (rt : Runtime) (s m0 p0 : JsString) (attempt : Z)
        (response : GenerateContentResponse)
        (candidate : Candidate) (others : list Candidate) (ct : Content)
        (before : list Part) (part : Part) (after : list Part)
        (m d : JsString) :
  matchDataUrl s = Some (m0, p0) ->
  (1 <= attempt <= maxRetries)%Z ->
  (forall j, (1 <= j < attempt)%Z ->
             exists e, RetryableFailure rt (request m0 p0) j e) ->
  generateContent rt attempt (request m0 p0) = Fulfilled response ->
  candidates response = Some (candidate :: others) ->
  content candidate = Some ct ->
  parts ct = Some (before ++ part :: after) ->
  Forall (fun q => inlineData q = None) before ->
  inlineData part = Some {| mimeType := Some m; data := Some d |} ->
  generateWatercolourPainting rt s =
  (Fulfilled (lit "data:" ++ m ++ lit ";base64," ++ d),
   retriedFrom (request m0 p0) 1 (Z.to_nat (attempt - 1))
   ++ [Call (request m0 p0)]) /\
  loopFrom rt (request m0 p0) attempt =
  (Fulfilled (lit "data:" ++ m ++ lit ";base64," ++ d),
   [Call (request m0 p0)]).
Proof.
  intros Hm Hr Hbefore Hc Hcand Hcont Hparts Hnone Hpart.
  assert (Hps : firstCandidateParts response
                = Some (before ++ part :: after)).
  { unfold firstCandidateParts. now rewrite Hcand, Hcont. }
  assert (Hfirst : FirstInlinePart (before ++ part :: after) part
                                   {| mimeType := Some m; data := Some d |}).
  { exists before, after. split; [reflexivity|]. split; [|exact Hpart].
    apply forallb_forall. intros q Hq.
    rewrite Forall_forall in Hnone. unfold hasInlineData.
    now rewrite (Hnone q Hq). }
  assert (Hi := @tryBlock_image rt (request m0 p0) attempt response
                                (before ++ part :: after) part
                                _ Hc Hps Hfirst).
  assert (Hloop : loopFrom rt (request m0 p0) attempt =
                  (Fulfilled (lit "data:" ++ m ++ lit ";base64," ++ d),
                   [Call (request m0 p0)])).
  { rewrite loopFrom_step by lia. unfold tryBlock. now rewrite Hc, Hi. }
  split; [|exact Hloop].
  rewrite (generate_loop rt s Hm).
  rewrite (@loopFrom_retried_until rt (request m0 p0) attempt Hr Hbefore).
  now rewrite Hloop.
Qed.

Lemma inline_image_ends_generation_witness :
  generateWatercolourPainting
    (scripted [Rejected serverError; Rejected serverError]
              (Fulfilled proseThenImage))
    pngUrl =
  (Fulfilled (lit "data:" ++ lit "image/jpeg" ++ lit ";base64," ++ lit "BBBB"),
   retriedFrom pngRequest 1 (Z.to_nat (3 - 1)) ++ [Call pngRequest]) /\
  loopFrom (scripted [Rejected serverError; Rejected serverError]
                     (Fulfilled proseThenImage))
           pngRequest 3 =
  (Fulfilled (lit "data:" ++ lit "image/jpeg" ++ lit ";base64," ++ lit "BBBB"),
   [Call pngRequest]).
Proof.
  apply (@inline_image_ends_generation
           (scripted [Rejected serverError; Rejected serverError]
                     (Fulfilled proseThenImage))
           pngUrl (lit "image/png") (lit "iVBORw0KG") 3
           proseThenImage
           {| content := Some {| parts := Some [prosePart; jpegPart] |} |}
           []
           {| parts := Some [prosePart; jpegPart] |}
           [prosePart] jpegPart []).
  - reflexivity.
  - cbv; split; discriminate.
  - intros j Hj. exists serverError.
    assert (Hc : j = 1%Z \/ j = 2%Z) by lia.
    destruct Hc as [-> | ->]; split; reflexivity.
  - reflexivity.
  - reflexivity.
  - reflexivity.
  - reflexivity.
  - repeat constructor.
  - reflexivity.
Defined.

(** C5, as stated, fails.  A response holds a part with inline data of type
    image/jpeg and payload BBBB.  When a part with inline data comes before
    it, the run returns the data URL of that earlier part; when it is in
    the second candidate, the run fails as for a response without image. *)
Lemma later_inline_part_not_returned :
  firstCandidateParts twoImages = Some [pngPart; jpegPart] /\
  inlineData jpegPart
  = Some {| mimeType := Some (lit "image/jpeg"); data := Some (lit "BBBB") |} /\
  generateWatercolourPainting (always (Fulfilled twoImages)) pngUrl
  = (Fulfilled (lit "data:image/png;base64,AAAA"), [Call pngRequest]) /\
  lit "data:image/png;base64,AAAA" <> lit "data:image/jpeg;base64,BBBB" /\
  candidates imageInSecondCandidate
  = Some [ {| content := Some {| parts := Some [prosePart] |} |};
           {| content := Some {| parts := Some [jpegPart] |} |} ] /\
  generateWatercolourPainting (always (Fulfilled imageInSecondCandidate))
                              pngUrl
  = (Rejected
       (ErrorObject
          (failedWithDetailMessage
             1 (textInsteadOfImageMessage
                  (Some (lit "Here is your painting."))))),
     [Call pngRequest]).
Proof. repeat split; try reflexivity. discriminate. Qed.

(** The outcomes of a run.  It either returns the string
    [data:<m>;base64,<d>] built from the MIME type and the data of the
    first part with inline data of a response it received, or throws an
    [Error] object: the invalid-format error, the error naming the attempt
    count, or the [TypeError] raised in the [catch] block for a description
    that is undefined.  The returned string is a well-formed image data URL
    when the MIME type of the response is [image/] followed by word
    characters and its data is not empty and holds no line terminator. *)
Theorem generate_outcome (rt : Runtime) (s : JsString) :
  match generateWatercolourPainting rt s with
  | (Fulfilled url, _) =>
      exists m p attempt response blob d,
        matchDataUrl s = Some (m, p) /\
        (1 <= attempt <= maxRetries)%Z /\
        generateContent rt attempt (request m p) = Fulfilled response /\
        imagePartFromResponse response = Some blob /\
        data blob = Some d /\
        url = lit "data:" ++ display (mimeType blob) ++ lit ";base64," ++ d /\
        (forall w,
            mimeType blob = Some (lit "image/" ++ w) ->
            w <> [] -> forallb isWordChar w = true ->
            d <> [] -> forallb isDot d = true ->
            wellFormedImageBlob url = true)
  | (Rejected e, _) =>
      GenerationFailure rt e /\ exists message, e = ErrorObject message
  end.
Proof.
  unfold generateWatercolourPainting.
  destruct (matchDataUrl s) as [[m p]|] eqn:Hm.
  - assert (H := @attemptLoop_outcome rt (request m p) 3 1
                   eq_refl ltac:(lia) ltac:(lia)).
    change (Z.to_nat maxRetries) with 3%nat.
    destruct (attemptLoop rt (request m p) 3 1) as [[url|e] tr].
    + destruct H as (attempt & response & blob & d & Hr & Hc & Hi & Hd & ->).
      exists m, p, attempt, response, blob, d. repeat split; auto; try tauto.
      intros w Hw. rewrite Hw. cbn [display]. apply wellFormed_dataUrl.
    + split; [exact H | now apply GenerationFailure_is_error in H].
  - split; [apply InvalidInput | eauto].
Qed.

Lemma generate_outcome_witness : wellFormedImageBlob paintingUrl = true.
Proof.
  pose proof (generate_outcome alwaysPainting pngUrl) as H.
  change (generateWatercolourPainting alwaysPainting pngUrl)
    with (@Fulfilled JsString paintingUrl, [Call pngRequest]) in H.
  cbv beta iota in H.
  destruct H as (m & p & attempt & response & blob & d
                 & _ & _ & Hc & Hi & Hd & Hu & Hw).
  injection Hc as <-. injection Hi as <-. injection Hd as <-.
  apply (Hw (lit "png")); [reflexivity | discriminate | reflexivity
                           | discriminate | reflexivity].
Defined.

(** C6, the run that departs from it.  For a valid input, the model
    answers with a part of inline data of type text/plain and with empty
    data: the run resolves, and to a string that is no well-formed image
    data URL, where the function is documented (line 19) to resolve to an
    image data URL of the painting. *)
Lemma malformed_result_returned :
  wellFormedImageBlob pngUrl = true /\
  generateWatercolourPainting alwaysPlainText pngUrl =
  (Fulfilled (lit "data:text/plain;base64,"), [Call pngRequest]) /\
  wellFormedImageBlob (lit "data:text/plain;base64,") = false.
Proof. repeat split; reflexivity. Qed.

Example undefined_mime_type_returned :
  generateWatercolourPainting
    (always (Fulfilled (imageResponse None (Some (lit "UGFpbnRpbmc")))))
    pngUrl =
  (Fulfilled (lit "data:undefined;base64,UGFpbnRpbmc"), [Call pngRequest]).
Proof. reflexivity. Qed.

Example undefined_data_fails :
  generateWatercolourPainting
    (always (Fulfilled (imageResponse (Some (lit "image/png")) None)))
    pngUrl =
  (Rejected (ErrorObject
               (failedWithDetailMessage 1 (v8TypeError (lit "length")))),
   [Call pngRequest]).
Proof. reflexivity. Qed.

(** C10.  The validation accepts only MIME types made of [image/] and a
    non-empty run of word characters; [+] is not a word character, and the
    data URL of an SVG image, [data:image/svg+xml;base64,...], fails with
    the invalid-format error, whatever the remote service would answer. *)
Theorem mime_subtype_word_characters_only :
  (forall s m p,
      matchDataUrl s = Some (m, p) ->
      exists w, m = lit "image/" ++ w /\ w <> []
                /\ forallb isWordChar w = true) /\
  includes (lit "svg+xml") (lit "+") = true /\
  forallb isWordChar (lit "+") = false /\
  (forall rt,
      generateWatercolourPainting rt (lit "data:image/svg+xml;base64,PHN2Zy8+")
      = (Rejected (ErrorObject invalidDataUrlMessage), [])).
Proof.
  split; [|repeat split].
  intros s m p H. apply matchDataUrl_spec in H as (w & ? & ? & ? & _).
  now exists w.
Qed.

Lemma mime_subtype_word_characters_only_witness :
  exists w, lit "image/png" = lit "image/" ++ w /\ w <> []
            /\ forallb isWordChar w = true.
Proof.
  apply (proj1 mime_subtype_word_characters_only
               pngUrl (lit "image/png") (lit "iVBORw0KG")).
  reflexivity.
Defined.

End GeminiServiceFacts.

(* ================================================================= *)
(** ** Facts about the component *)

Module AppFacts.
Import GeminiService JsFacts GeminiServiceFacts App Scenarios.

Section Component.

Variable LatLngLiteral : Type.
Lemma run_app (st : AppState LatLngLiteral) (a b : list (Op LatLngLiteral)) :
  run st (a ++ b) = run (run st a) b.
Proof. apply fold_left_app. Qed.

Lemma captures_app (a b : list (Op LatLngLiteral)) :
  captures (a ++ b) = (captures a + captures b)%nat.
Proof.
  induction a as [|op a IH]; [reflexivity|].
  destruct op; cbn [app captures]; rewrite IH; reflexivity.
Qed.

Lemma generated_app (a b : list (Op LatLngLiteral)) :
  generated (a ++ b) = generated a ++ generated b.
Proof.
  induction a as [|op a IH]; [reflexivity|].
  destruct op; cbn [app generated]; rewrite IH; reflexivity.
Qed.

(** [initMap], when it gets to its end, leaves neither a painting nor a
    cached capture. *)
Lemma initMap_clears (location : LatLngLiteral) (formattedAddr : JsString)
      (st0 st : AppState LatLngLiteral) :
  mapRef st0 = true ->
  let st1 := run st (initMap true location formattedAddr st0) in
  mapInitialized st1 = true /\ watercolourPainting st1 = []
  /\ capturedMapImage st1 = []
  /\ isGeneratingPainting st1 = isGeneratingPainting st
  /\ mapInstanceRef st1 = Some {| center := location |}.
Proof.
  intros Href. unfold initMap. rewrite Href. cbn. auto.
Qed.

(** Whatever [initMap] does, a state without painting and without cached
    capture stays so. *)
Lemma initMap_keeps_cleared (librariesLoaded : bool)
      (location : LatLngLiteral) (formattedAddr : JsString)
      (st0 st : AppState LatLngLiteral) :
  watercolourPainting st = [] -> capturedMapImage st = [] ->
  let st1 := run st (initMap librariesLoaded location formattedAddr st0) in
  watercolourPainting st1 = [] /\ capturedMapImage st1 = []
  /\ isGeneratingPainting st1 = isGeneratingPainting st.
Proof.
  intros Hw Hc. unfold initMap.
  destruct (mapRef st0), librariesLoaded; cbn; auto.
Qed.

Ltac by_initMap :=
  match goal with
  | |- context [run ?s (initMap ?l ?loc ?a ?s0)] =>
      destruct (@initMap_keeps_cleared l loc a s0 s) as (? & ? & ?);
      [cbn; auto .. | auto]
  end.

(** An event other than a generation request keeps a state without
    painting and without cached capture as it is in these respects. *)
Lemma step_keeps_cleared (ev : UiEvent LatLngLiteral)
      (st : AppState LatLngLiteral) :
  isGenerate ev = false ->
  watercolourPainting st = [] -> capturedMapImage st = [] ->
  watercolourPainting (step st ev) = [] /\ capturedMapImage (step st ev) = [].
Proof.
  intros Hev Hw Hc. unfold step.
  destruct ev as [value|place libs|geocode libs|canvas rt| | |];
    try discriminate Hev; cbn [handle].
  - cbn. auto.
  - unfold placeChanged.
    destruct (placeLocation place) as [location|]; [|cbn; auto].
    destruct (formatted_address place) as [formattedAddr|]; [|cbn; auto].
    destruct (truthy formattedAddr); [|cbn; auto].
    change (SetAddress formattedAddr
              :: initMap libs location formattedAddr st)
      with ([SetAddress formattedAddr]
              ++ initMap libs location formattedAddr st).
    rewrite run_app. by_initMap.
  - unfold handleShow3DView.
    destruct (negb (truthy (trim (address st)))); [cbn; auto|].
    destruct geocode as [[[|r results]|]|err]; try (cbn; auto; fail).
    change (SetError None :: SetIsLoading true ::
              [SetAddress (resultAddress r); SetIsLoading false]
              ++ initMap libs (geometryLocation r) (resultAddress r) st)
      with ([SetError None; SetIsLoading true;
             SetAddress (resultAddress r); SetIsLoading false]
              ++ initMap libs (geometryLocation r) (resultAddress r) st).
    rewrite run_app. by_initMap.
  - cbn. auto.
  - unfold handleDownloadPainting. rewrite Hw. cbn. auto.
  - cbn. auto.
Qed.

Lemma steps_keep_cleared (evs : list (UiEvent LatLngLiteral)) :
  forall st : AppState LatLngLiteral,
    forallb (fun ev => negb (isGenerate ev)) evs = true ->
    watercolourPainting st = [] -> capturedMapImage st = [] ->
    watercolourPainting (steps st evs) = []
    /\ capturedMapImage (steps st evs) = [].
Proof.
  induction evs as [|ev evs IH]; intros st Hevs Hw Hc; [cbn; auto|].
  cbn [forallb] in Hevs. apply andb_true_iff in Hevs as [Hev Hevs].
  apply negb_true_iff in Hev.
  destruct (step_keeps_cleared ev st Hev Hw Hc) as [Hw' Hc'].
  cbn [steps fold_left]. apply IH; assumption.
Qed.

(** The steps of [handleGenerateWatercolour], spelled out. *)
Lemma handleGenerateWatercolour_ops (canvas : Settled JsString)
      (rt : Runtime) (st : AppState LatLngLiteral) :
  handleGenerateWatercolour canvas rt st =
  [SetIsGeneratingPainting true; SetError None]
    ++ snd (imageToProcess canvas st)
    ++ match fst (imageToProcess canvas st) with
       | Fulfilled imageDataUrl =>
           GeneratePainting imageDataUrl
                            (snd (generateWatercolourPainting rt imageDataUrl))
             :: match fst (generateWatercolourPainting rt imageDataUrl) with
                | Fulfilled paintingDataUrl =>
                    [SetWatercolourPainting paintingDataUrl]
                | Rejected err => generateFailed err
                end
       | Rejected err => generateFailed err
       end
    ++ [SetIsGeneratingPainting false].
Proof.
  unfold handleGenerateWatercolour.
  destruct (imageToProcess canvas st) as [[image|err] captureOps]; cbn [fst snd].
  - destruct (generateWatercolourPainting rt image) as [[url|err] trace];
      cbn [fst snd]; now rewrite <- !app_assoc.
  - now rewrite <- !app_assoc.
Qed.

(** When there is no cached capture, the view is captured once and the
    generator is given nothing but that capture. *)
Lemma fresh_capture (canvas : Settled JsString) (rt : Runtime)
      (st : AppState LatLngLiteral) :
  capturedMapImage st = [] ->
  let ops := handleGenerateWatercolour canvas rt st in
  captures ops = 1%nat /\
  forall image,
    In image (generated ops) -> captureMapView canvas st = Fulfilled image.
Proof.
  intros Hc ops. subst ops. rewrite handleGenerateWatercolour_ops.
  unfold imageToProcess. rewrite Hc. cbn [truthy]. rewrite andb_false_r.
  destruct (captureMapView canvas st) as [newImageDataUrl|err]; cbn [fst snd].
  - destruct (fst (generateWatercolourPainting rt newImageDataUrl));
      (split; [reflexivity|]); cbn; intros image [<-|[]]; reflexivity.
  - destruct err; (split; [reflexivity|]); cbn; intros image [].
Qed.

(** *** The state between two events *)

Lemma initMap_quiescent (librariesLoaded : bool) (location : LatLngLiteral)
      (formattedAddr : JsString) (st0 st : AppState LatLngLiteral) :
  Quiescent st ->
  Quiescent (run st (initMap librariesLoaded location formattedAddr st0)).
Proof.
  intros [Hg Hc]. unfold initMap.
  destruct (mapRef st0), librariesLoaded; split; cbn; auto.
Qed.

Lemma initial_quiescent : Quiescent (@initialState LatLngLiteral).
Proof. split; reflexivity. Qed.

(** Every handler, run to its end, leaves the component not generating, and
    with a cached capture exactly when it shows a painting. *)
Lemma step_quiescent (ev : UiEvent LatLngLiteral)
      (st : AppState LatLngLiteral) :
  Quiescent st -> Quiescent (step st ev).
Proof.
  intros Q. pose proof Q as [Hg Hc]. unfold step.
  destruct ev as [value|place libs|geocode libs|canvas rt| | |]; cbn [handle].
  - split; cbn; auto.
  - unfold placeChanged.
    destruct (placeLocation place) as [location|]; [|exact Q].
    destruct (formatted_address place) as [formattedAddr|]; [|exact Q].
    destruct (truthy formattedAddr); [|exact Q].
    change (SetAddress formattedAddr :: initMap libs location formattedAddr st)
      with ([SetAddress formattedAddr]
              ++ initMap libs location formattedAddr st).
    rewrite run_app. apply initMap_quiescent. split; cbn; auto.
  - unfold handleShow3DView.
    destruct (negb (truthy (trim (address st)))); [split; cbn; auto|].
    destruct geocode as [[[|r results]|]|err]; try (split; cbn; auto; fail).
    change (SetError None :: SetIsLoading true ::
              [SetAddress (resultAddress r); SetIsLoading false]
              ++ initMap libs (geometryLocation r) (resultAddress r) st)
      with ([SetError None; SetIsLoading true;
             SetAddress (resultAddress r); SetIsLoading false]
              ++ initMap libs (geometryLocation r) (resultAddress r) st).
    rewrite run_app. apply initMap_quiescent. split; cbn; auto.
  - rewrite handleGenerateWatercolour_ops. unfold imageToProcess.
    destruct (truthy (watercolourPainting st)
              && truthy (capturedMapImage st)) eqn:E; cbn [fst snd].
    + apply andb_true_iff in E as [_ Ecap].
      destruct (generateWatercolourPainting rt (capturedMapImage st))
        as [[url|err] trace] eqn:G; cbn [fst snd].
      * apply generated_painting_truthy in G as [Hurl _].
        split; cbn; [reflexivity | congruence].
      * split; reflexivity.
    + destruct (captureMapView canvas st) as [newImageDataUrl|err];
        cbn [fst snd]; [|split; reflexivity].
      destruct (generateWatercolourPainting rt newImageDataUrl)
        as [[url|err] trace] eqn:G; cbn [fst snd].
      * apply generated_painting_truthy in G as [Hurl Hnew].
        split; cbn; [reflexivity | congruence].
      * split; reflexivity.
  - split; cbn; auto.
  - unfold handleDownloadPainting.
    destruct (negb (truthy (watercolourPainting st))); exact Q.
  - split; cbn; auto.
Qed.

Lemma steps_quiescent (evs : list (UiEvent LatLngLiteral)) :
  forall st : AppState LatLngLiteral, Quiescent st -> Quiescent (steps st evs).
Proof.
  induction evs as [|ev evs IH]; intros st Q; [exact Q|].
  cbn [steps fold_left]. apply IH, step_quiescent, Q.
Qed.

(** Between two events the view phases have no cached capture and the
    result phase has one. *)
Lemma quiescent_phase (st : AppState LatLngLiteral) :
  Quiescent st ->
  match phase st with
  | NoView | ViewReady => capturedMapImage st = []
  | ResultReady => truthy (capturedMapImage st) = true
  | Generating => False
  end.
Proof.
  intros [Hg Hc]. unfold phase. rewrite Hg.
  destruct (truthy (watercolourPainting st)) eqn:Hw; [exact Hc|].
  destruct (capturedMapImage st); [|discriminate Hc].
  now destruct (mapInitialized st).
Qed.

(** *** Properties of the specification *)

(** C7.  When generation is requested in the result phase with a cached
    capture, the view is not captured and the generator is given the cached
    capture.  When it is requested without a cached capture, the view is
    captured exactly once; when the capture succeeds, it is written to the
    cache first, it is what the generator is given, and it is still cached
    when the generator has succeeded.  Between two events, the state of the
    view phase has no cached capture. *)
Theorem capture_reused_or_taken_once
        (canvas : Settled JsString) (rt : Runtime)
        (st : AppState LatLngLiteral) :
  (phase st = ResultReady ->
   truthy (capturedMapImage st) = true ->
   captures (handleGenerateWatercolour canvas rt st) = 0%nat /\
   generated (handleGenerateWatercolour canvas rt st) = [capturedMapImage st])
  /\
  (capturedMapImage st = [] ->
   captures (handleGenerateWatercolour canvas rt st) = 1%nat /\
   forall newImageDataUrl,
     captureMapView canvas st = Fulfilled newImageDataUrl ->
     (exists after,
         handleGenerateWatercolour canvas rt st =
         [SetIsGeneratingPainting true; SetError None; CaptureMapView;
          SetCapturedMapImage newImageDataUrl] ++ after) /\
     capturedMapImage
       (run st [SetIsGeneratingPainting true; SetError None; CaptureMapView;
                SetCapturedMapImage newImageDataUrl]) = newImageDataUrl /\
     generated (handleGenerateWatercolour canvas rt st) = [newImageDataUrl] /\
     forall paintingDataUrl,
       fst (generateWatercolourPainting rt newImageDataUrl)
       = Fulfilled paintingDataUrl ->
       capturedMapImage (run st (handleGenerateWatercolour canvas rt st))
       = newImageDataUrl /\
       watercolourPainting (run st (handleGenerateWatercolour canvas rt st))
       = paintingDataUrl)
  /\
  (Quiescent st -> phase st = ViewReady -> capturedMapImage st = []).
Proof.
  split; [|split].
  - intros Hphase Hcap.
    assert (Hw : truthy (watercolourPainting st) = true).
    { unfold phase in Hphase.
      destruct (isGeneratingPainting st); [discriminate|].
      destruct (truthy (watercolourPainting st)); [reflexivity|].
      destruct (mapInitialized st); discriminate. }
    rewrite handleGenerateWatercolour_ops. unfold imageToProcess.
    rewrite Hw, Hcap. cbn [andb fst snd].
    destruct (fst (generateWatercolourPainting rt (capturedMapImage st)));
      split; reflexivity.
  - intros Hc. split; [now apply fresh_capture|].
    intros newImageDataUrl Hnew.
    rewrite handleGenerateWatercolour_ops. unfold imageToProcess.
    rewrite Hc, Hnew. cbn [truthy]. rewrite andb_false_r. cbn [fst snd].
    split; [|split; [|split]].
    + eexists. reflexivity.
    + reflexivity.
    + destruct (fst (generateWatercolourPainting rt newImageDataUrl));
        reflexivity.
    + intros paintingDataUrl ->. split; reflexivity.
  - intros Q Hphase. pose proof (quiescent_phase Q) as H.
    now rewrite Hphase in H.
Qed.

(** C8.  When the painting generator fails, whatever its error, the handler
    ends with no painting, no cached capture, the message of the error in
    the error cell and the component no longer generating: from the
    generating phase it is back in the view phase. *)
Theorem generator_failure_returns_to_view
        (canvas : Settled JsString) (rt : Runtime)
        (st : AppState LatLngLiteral)
        (image : JsString) (captureOps : list (Op LatLngLiteral))
        (err : Thrown) (trace : list Event) :
  imageToProcess canvas st = (Fulfilled image, captureOps) ->
  generateWatercolourPainting rt image = (Rejected err, trace) ->
  phase (run st [SetIsGeneratingPainting true; SetError None]) = Generating /\
  watercolourPainting (run st (handleGenerateWatercolour canvas rt st)) = [] /\
  capturedMapImage (run st (handleGenerateWatercolour canvas rt st)) = [] /\
  isGeneratingPainting (run st (handleGenerateWatercolour canvas rt st))
  = false /\
  (exists message,
      err = ErrorObject message /\
      error (run st (handleGenerateWatercolour canvas rt st)) = Some message) /\
  mapInitialized (run st (handleGenerateWatercolour canvas rt st))
  = mapInitialized st /\
  (mapInitialized st = true ->
   phase (run st (handleGenerateWatercolour canvas rt st)) = ViewReady).
Proof.
  intros Himg Hgen.
  destruct (generator_rejects_with_error rt image Hgen) as [message ->].
  split; [reflexivity|].
  rewrite handleGenerateWatercolour_ops, Himg. cbn [fst snd]. rewrite Hgen.
  cbn [fst snd].
  unfold imageToProcess in Himg.
  destruct (truthy (watercolourPainting st) && truthy (capturedMapImage st)).
  - injection Himg as _ <-. repeat split; eauto.
    intros Hmap. unfold phase. cbn. now rewrite Hmap.
  - destruct (captureMapView canvas st) as [newImageDataUrl|e];
      [|discriminate].
    injection Himg as _ <-. repeat split; eauto.
    intros Hmap. unfold phase. cbn. now rewrite Hmap.
Qed.

(** X19.  When handlers run one at a time, each to its end before the next
    event is handled: an event that resolves a location and renders a view
    for it leaves the map initialized, with no painting and no cached
    capture, in the view phase; and after any events that follow and are
    not generation requests, the next generation request captures the view
    exactly once, and the generator is given nothing but that fresh
    capture. *)
Theorem new_location_forces_fresh_capture
        (ev : UiEvent LatLngLiteral) (st : AppState LatLngLiteral) :
  rendersLocation ev st = true ->
  mapInitialized (step st ev) = true /\
  watercolourPainting (step st ev) = [] /\
  capturedMapImage (step st ev) = [] /\
  (isGeneratingPainting st = false -> phase (step st ev) = ViewReady) /\
  forall evs canvas rt,
    forallb (fun e => negb (isGenerate e)) evs = true ->
    captures (handleGenerateWatercolour canvas rt (steps (step st ev) evs))
    = 1%nat /\
    forall image,
      In image (generated (handleGenerateWatercolour
                             canvas rt (steps (step st ev) evs))) ->
      captureMapView canvas (steps (step st ev) evs) = Fulfilled image.
Proof.
  intros Hev.
  assert (H : mapInitialized (step st ev) = true /\
              watercolourPainting (step st ev) = [] /\
              capturedMapImage (step st ev) = [] /\
              isGeneratingPainting (step st ev) = isGeneratingPainting st).
  { unfold rendersLocation in Hev. apply andb_true_iff in Hev as [Href Hev].
    unfold step.
    destruct ev as [value|place libs|geocode libs|canvas rt| | |];
      try discriminate Hev; cbn [handle].
    - apply andb_true_iff in Hev as [-> Hev]. unfold placeChanged.
      destruct (placeLocation place) as [location|]; [|discriminate].
      destruct (formatted_address place) as [formattedAddr|]; [|discriminate].
      rewrite Hev.
      change (SetAddress formattedAddr
                :: initMap true location formattedAddr st)
        with ([SetAddress formattedAddr]
                ++ initMap true location formattedAddr st).
      rewrite run_app.
      destruct (@initMap_clears location formattedAddr st
                                (run st [SetAddress formattedAddr]) Href)
        as (? & ? & ? & ? & _).
      auto.
    - destruct geocode as [[[|r results]|]|err]; try discriminate Hev.
      apply andb_true_iff in Hev as [-> Hev]. unfold handleShow3DView.
      rewrite Hev. cbn [negb].
      change (SetError None :: SetIsLoading true ::
                [SetAddress (resultAddress r); SetIsLoading false]
                ++ initMap true (geometryLocation r) (resultAddress r) st)
        with ([SetError None; SetIsLoading true;
               SetAddress (resultAddress r); SetIsLoading false]
                ++ initMap true (geometryLocation r) (resultAddress r) st).
      rewrite run_app.
      destruct (@initMap_clears
                  (geometryLocation r) (resultAddress r) st
                  (run st [SetError None; SetIsLoading true;
                           SetAddress (resultAddress r); SetIsLoading false])
                  Href)
        as (? & ? & ? & ? & _).
      auto. }
  destruct H as (Hmap & Hw & Hc & Hg).
  repeat (split; [assumption|]). split.
  - intros Hidle. unfold phase. now rewrite Hg, Hidle, Hw, Hmap.
  - intros evs canvas rt Hevs.
    destruct (@steps_keep_cleared evs (step st ev) Hevs Hw Hc) as [_ Hc'].
    now apply fresh_capture.
Qed.

End Component.

(** *** Runs of the component *)

Example eiffel_run :
  phase (@initialState Coordinates) = NoView /\
  phase viewReady = ViewReady /\
  captures (handleGenerateWatercolour (Fulfilled pngUrl) alwaysPainting
                                      viewReady) = 1%nat /\
  phase resultReady = ResultReady /\
  watercolourPainting resultReady = paintingUrl /\
  capturedMapImage resultReady = pngUrl.
Proof. repeat split; reflexivity. Qed.

Example back_to_map :
  phase (step resultReady BackToMap) = ViewReady /\
  watercolourPainting (step resultReady BackToMap) = [] /\
  capturedMapImage (step resultReady BackToMap) = [].
Proof. repeat split; reflexivity. Qed.

Example blank_address_not_submitted :
  error (step (@initialState Coordinates)
              (Show3DView (Fulfilled (Some [eiffelResult])) true))
  = Some enterAddressMessage.
Proof. reflexivity. Qed.

Lemma viewReady_quiescent : Quiescent viewReady.
Proof. apply steps_quiescent, initial_quiescent. Qed.

Lemma capture_reused_or_taken_once_witness :
  (captures (handleGenerateWatercolour (Fulfilled otherCapture) alwaysPainting
                                       resultReady) = 0%nat /\
   generated (handleGenerateWatercolour (Fulfilled otherCapture) alwaysPainting
                                        resultReady)
   = [capturedMapImage resultReady]) /\
  captures (handleGenerateWatercolour (Fulfilled pngUrl) alwaysPainting
                                      viewReady) = 1%nat /\
  capturedMapImage
    (run viewReady
         (handleGenerateWatercolour (Fulfilled pngUrl) alwaysPainting viewReady))
  = pngUrl /\
  capturedMapImage viewReady = [].
Proof.
  split; [|split; [|split]].
  - apply (proj1 (@capture_reused_or_taken_once
                    Coordinates (Fulfilled otherCapture) alwaysPainting
                    resultReady)); reflexivity.
  - apply (proj1 (proj2 (@capture_reused_or_taken_once
                           Coordinates (Fulfilled pngUrl) alwaysPainting
                           viewReady))).
    reflexivity.
  - destruct (proj1 (proj2 (@capture_reused_or_taken_once
                              Coordinates (Fulfilled pngUrl) alwaysPainting
                              viewReady)) eq_refl) as [_ H].
    destruct (H pngUrl eq_refl) as (_ & _ & _ & Hdone).
    exact (proj1 (Hdone paintingUrl eq_refl)).
  - apply (proj2 (proj2 (@capture_reused_or_taken_once
                           Coordinates (Fulfilled pngUrl) alwaysPainting
                           viewReady))).
    + split; reflexivity.
    + reflexivity.
Defined.

Lemma generator_failure_returns_to_view_witness :
  watercolourPainting
    (run viewReady
         (handleGenerateWatercolour (Fulfilled pngUrl) alwaysKeyError viewReady))
  = [] /\
  capturedMapImage
    (run viewReady
         (handleGenerateWatercolour (Fulfilled pngUrl) alwaysKeyError viewReady))
  = [] /\
  (exists message,
      wrapError 1 keyError = ErrorObject message /\
      error (run viewReady
                 (handleGenerateWatercolour (Fulfilled pngUrl) alwaysKeyError
                                            viewReady))
      = Some message) /\
  phase (run viewReady
             (handleGenerateWatercolour (Fulfilled pngUrl) alwaysKeyError
                                        viewReady))
  = ViewReady.
Proof.
  destruct (@generator_failure_returns_to_view
              Coordinates (Fulfilled pngUrl) alwaysKeyError viewReady pngUrl
              [CaptureMapView; SetCapturedMapImage pngUrl]
              (wrapError 1 keyError) [Call pngRequest] eq_refl eq_refl)
    as (_ & Hw & Hc & _ & Herr & _ & Hphase).
  repeat (split; [assumption|]).
  apply Hphase. reflexivity.
Defined.

Lemma new_location_forces_fresh_capture_witness :
  mapInitialized
    (step resultReady (Show3DView (Fulfilled (Some [eiffelResult])) true))
  = true /\
  watercolourPainting
    (step resultReady (Show3DView (Fulfilled (Some [eiffelResult])) true))
  = [] /\
  capturedMapImage
    (step resultReady (Show3DView (Fulfilled (Some [eiffelResult])) true))
  = [] /\
  phase (step resultReady (Show3DView (Fulfilled (Some [eiffelResult])) true))
  = ViewReady /\
  captures
    (handleGenerateWatercolour
       (Fulfilled otherCapture) alwaysPainting
       (steps (step resultReady
                    (Show3DView (Fulfilled (Some [eiffelResult])) true))
              [PlaceholderTick; BackToMap]))
  = 1%nat.
Proof.
  destruct (@new_location_forces_fresh_capture
              Coordinates (Show3DView (Fulfilled (Some [eiffelResult])) true)
              resultReady eq_refl)
    as (Hmap & Hw & Hc & Hphase & Hnext).
  repeat (split; [assumption|]).
  split; [apply Hphase; reflexivity|].
  apply (Hnext [PlaceholderTick; BackToMap] (Fulfilled otherCapture)
               alwaysPainting eq_refl).
Defined.

End AppFacts.

(* ================================================================= *)
(** ** Further properties of the painting generator *)

Module GeneratorProperties.
Import GeminiService JsFacts GeminiServiceFacts Scenarios.

(** *** The loop, read from its trace *)

Section Loop.

Variable rt : Runtime.
Variable req : GenerateContentParameters.

(** The trace of the loop is a run of retried iterations and one last
    call. *)
Lemma attemptLoop_trace :
  forall (remaining : nat) (attempt : Z),
    Z.of_nat remaining = (maxRetries + 1 - attempt)%Z ->
    (1 <= remaining)%nat ->
    exists k, (k < remaining)%nat /\
              snd (attemptLoop rt req remaining attempt)
              = retriedFrom req attempt k ++ [Call req].
Proof.
  induction remaining as [|remaining IH]; intros attempt Hrem Hpos; [lia|].
  cbn [attemptLoop].
  destruct (tryBlock rt req attempt) as [url|error].
  - exists 0%nat. split; [lia | reflexivity].
  - destruct (catchBlock rt attempt error) as [delay|e] eqn:Hc.
    + apply catchBlock_Retry in Hc as (_ & Hlt & ->).
      destruct (IH (attempt + 1)%Z ltac:(lia) ltac:(lia)) as (k & Hk & Htr).
      destruct (attemptLoop rt req remaining (attempt + 1)) as [r tr].
      cbn [snd] in *. exists (S k). split; [lia|].
      cbn [retriedFrom app]. now rewrite Htr.
    + exists 0%nat. split; [lia | reflexivity].
Qed.

(** The outcome of the loop is the outcome of the iteration of its last
    call, and every iteration before that one was retried. *)
Lemma attemptLoop_last :
  forall (remaining : nat) (attempt : Z) (r : Settled JsString)
         (tr : list Event),
    Z.of_nat remaining = (maxRetries + 1 - attempt)%Z ->
    (1 <= remaining)%nat ->
    attemptLoop rt req remaining attempt = (r, tr) ->
    (attempt <= attempt + Z.of_nat (calls tr) - 1 <= maxRetries)%Z /\
    (forall j, (attempt <= j < attempt + Z.of_nat (calls tr) - 1)%Z ->
               exists err, RetryableFailure rt req j err) /\
    match r with
    | Fulfilled url =>
        tryBlock rt req (attempt + Z.of_nat (calls tr) - 1) = Fulfilled url
    | Rejected e =>
        exists err,
          tryBlock rt req (attempt + Z.of_nat (calls tr) - 1) = Rejected err /\
          catchBlock rt (attempt + Z.of_nat (calls tr) - 1) err = Throw e
    end.
Proof.
  induction remaining as [|remaining IH]; intros attempt r tr Hrem Hpos;
    [lia|].
  cbn [attemptLoop].
  destruct (tryBlock rt req attempt) as [url|error] eqn:Htry.
  - intros [= <- <-]. cbn [calls].
    replace (attempt + Z.of_nat 1 - 1)%Z with attempt by lia.
    split; [lia|]. split; [intros j Hj; lia | exact Htry].
  - destruct (catchBlock rt attempt error) as [delay|e] eqn:Hc.
    + apply catchBlock_Retry in Hc as (Hm & Hlt & ->).
      destruct (attemptLoop rt req remaining (attempt + 1)) as [r' tr'] eqn:Hl.
      intros [= <- <-]. cbn [calls].
      destruct (IH (attempt + 1)%Z r' tr' ltac:(lia) ltac:(lia) Hl)
        as (Hk & Hbefore & Hlast).
      replace (attempt + Z.of_nat (S (calls tr')) - 1)%Z
        with (attempt + 1 + Z.of_nat (calls tr') - 1)%Z by lia.
      split; [lia|]. split; [|exact Hlast].
      intros j Hj. destruct (Z.eq_dec j attempt) as [->|Hne].
      * exists error. now split.
      * apply Hbefore. lia.
    + intros [= <- <-]. cbn [calls].
      replace (attempt + Z.of_nat 1 - 1)%Z with attempt by lia.
      split; [lia|]. split; [intros j Hj; lia|].
      exists error. now split.
Qed.

End Loop.

(** The error thrown after the loop is none of those the [catch] block
    throws for a caught [Error] or for another value. *)
Lemma failedAfter_not_after_loop (attempt : Z) (rest : JsString) :
  failedAfter attempt ++ rest <> afterAllRetriesMessage.
Proof.
  unfold failedAfter. rewrite <- !app_assoc.
  generalize (numberToString attempt ++ lit " 次後無法生成圖片。" ++ rest).
  intros tail H. vm_compute in H. discriminate H.
Qed.

Lemma wrapError_not_after_loop (attempt : Z) (error : Thrown) :
  wrapError attempt error <> ErrorObject afterAllRetriesMessage.
Proof.
  destruct error as [message|json]; intros [= H];
    now apply failedAfter_not_after_loop in H.
Qed.

(** *** Properties *)

(** X1.  The input pattern and the data URL template are inverse to each
    other: the two captures of an accepted input, put back into
    [data:<m>;base64,<p>], give the input; and a data URL built from
    [image/] with word characters and a payload without line terminator is
    accepted with exactly these two captures. *)
Theorem data_url_round_trip :
  (forall s m p, matchDataUrl s = Some (m, p) -> dataUrl m p = s) /\
  (forall w p,
      w <> [] -> forallb isWordChar w = true -> forallb isDot p = true ->
      matchDataUrl (dataUrl (lit "image/" ++ w) p)
      = Some (lit "image/" ++ w, p)).
Proof.
  split.
  - intros s m p H. apply matchDataUrl_spec in H as (w & _ & _ & _ & _ & ->).
    reflexivity.
  - intros w p Hw Hww Hp. apply matchDataUrl_spec.
    exists w. repeat split; assumption.
Qed.

Lemma data_url_round_trip_witness :
  dataUrl (lit "image/png") (lit "iVBORw0KG") = pngUrl /\
  matchDataUrl (dataUrl (lit "image/" ++ lit "jpeg") (lit "AAAA"))
  = Some (lit "image/" ++ lit "jpeg", lit "AAAA").
Proof.
  split.
  - apply (proj1 data_url_round_trip pngUrl). reflexivity.
  - apply (proj2 data_url_round_trip (lit "jpeg") (lit "AAAA"));
      [discriminate | reflexivity | reflexivity].
Defined.

(** X2.  The trace of every run has one shape.  For an input that the
    pattern rejects it is empty.  For an accepted input it is at most two
    retried iterations, each a call followed by its wait, and then one last
    call; every call carries the same request, made of the two captures of
    the input, and the waits are 1000 ms and then 2000 ms. *)
Theorem trace_shape (rt : Runtime) (s : JsString) :
  match matchDataUrl s with
  | None => snd (generateWatercolourPainting rt s) = []
  | Some (m, p) =>
      exists k, (k <= 2)%nat /\
                snd (generateWatercolourPainting rt s)
                = retriedFrom (request m p) 1 k ++ [Call (request m p)]
  end /\
  forall req, retriedFrom req 1 2
              = [Call req; Sleep 1000; Call req; Sleep 2000].
Proof.
  split; [|reflexivity].
  unfold generateWatercolourPainting.
  destruct (matchDataUrl s) as [[m p]|]; [|reflexivity].
  destruct (@attemptLoop_trace rt (request m p) 3 1 eq_refl ltac:(lia))
    as (k & Hk & Htr).
  exists k. split; [lia | exact Htr].
Qed.

(** X3.  For an accepted input, the outcome of a run is the outcome of the
    iteration of its last call: with [k] calls in the trace, [k] is between
    1 and 3, every iteration before [k] failed with a retryable error, and
    the run returns what the [try] block of iteration [k] returns, or throws
    what the [catch] block of iteration [k] throws for the value caught
    there.  The attempt count in a final error is so the number of calls
    made. *)
Theorem outcome_of_last_call
        (rt : Runtime) (s m p : JsString) (r : Settled JsString)
        (tr : list Event) :
  matchDataUrl s = Some (m, p) ->
  generateWatercolourPainting rt s = (r, tr) ->
  (1 <= Z.of_nat (calls tr) <= maxRetries)%Z /\
  (forall j, (1 <= j < Z.of_nat (calls tr))%Z ->
             exists err, RetryableFailure rt (request m p) j err) /\
  match r with
  | Fulfilled url =>
      tryBlock rt (request m p) (Z.of_nat (calls tr)) = Fulfilled url
  | Rejected e =>
      exists err,
        tryBlock rt (request m p) (Z.of_nat (calls tr)) = Rejected err /\
        catchBlock rt (Z.of_nat (calls tr)) err = Throw e /\
        (e = wrapError (Z.of_nat (calls tr)) err \/
         errorMessage err = None)
  end.
Proof.
  intros Hm Hrun. unfold generateWatercolourPainting in Hrun.
  rewrite Hm in Hrun. change (Z.to_nat maxRetries) with 3%nat in Hrun.
  destruct (@attemptLoop_last rt (request m p) 3 1 r tr
                              eq_refl ltac:(lia) Hrun)
    as (Hk & Hbefore & Hlast).
  replace (1 + Z.of_nat (calls tr) - 1)%Z with (Z.of_nat (calls tr))
    in * by lia.
  split; [lia|]. split; [exact Hbefore|].
  destruct r as [url|e]; [exact Hlast|].
  destruct Hlast as (err & Htry & Hc). exists err.
  split; [exact Htry|]. split; [exact Hc|].
  unfold catchBlock in Hc.
  destruct (errorMessage err) as [msg|]; [|now right].
  destruct (isInternalError msg && (Z.of_nat (calls tr) <? maxRetries)%Z);
    [discriminate|].
  left. now injection Hc.
Qed.

Lemma outcome_of_last_call_witness :
  tryBlock twiceServerError pngRequest 3 = Fulfilled paintingUrl /\
  exists err,
    tryBlock alwaysKeyError pngRequest 1 = Rejected err /\
    catchBlock alwaysKeyError 1 err
    = Throw (wrapError 1 keyError).
Proof.
  split.
  - destruct (@outcome_of_last_call
                twiceServerError pngUrl (lit "image/png") (lit "iVBORw0KG")
                (Fulfilled paintingUrl)
                [Call pngRequest; Sleep 1000; Call pngRequest; Sleep 2000;
                 Call pngRequest] eq_refl eq_refl)
      as (_ & _ & H).
    exact H.
  - destruct (@outcome_of_last_call
                alwaysKeyError pngUrl (lit "image/png") (lit "iVBORw0KG")
                (Rejected (wrapError 1 keyError)) [Call pngRequest]
                eq_refl eq_refl)
      as (_ & _ & err & Htry & Hc & _).
    exists err. split; [exact Htry | exact Hc].
Defined.

(** X4.  The statement after the loop is never reached: when the wording of
    the engine for a [TypeError] is not the text of that statement, no run
    fails with the error "AI 模型在所有重試後未能生成圖片。". *)
Theorem after_loop_unreachable (rt : Runtime) (s : JsString) :
  typeErrorMessage rt (lit "includes") <> afterAllRetriesMessage ->
  fst (generateWatercolourPainting rt s)
  <> Rejected (ErrorObject afterAllRetriesMessage).
Proof.
  intros Hengine.
  destruct (generateWatercolourPainting rt s) as [r tr] eqn:Hrun.
  cbn [fst]. intros ->.
  unfold generateWatercolourPainting in Hrun.
  destruct (matchDataUrl s) as [[m p]|]; [|discriminate Hrun].
  change (Z.to_nat maxRetries) with 3%nat in Hrun.
  destruct (@attemptLoop_last rt (request m p) 3 1 _ tr
                              eq_refl ltac:(lia) Hrun)
    as (_ & _ & err & _ & Hc).
  unfold catchBlock in Hc.
  destruct (errorMessage err) as [msg|].
  - destruct (isInternalError msg && _); [discriminate|].
    injection Hc as Hc. now apply wrapError_not_after_loop in Hc.
  - injection Hc as Hc. now apply Hengine.
Qed.

Lemma after_loop_unreachable_witness :
  fst (generateWatercolourPainting alwaysServerError pngUrl)
  <> Rejected (ErrorObject afterAllRetriesMessage).
Proof.
  apply (@after_loop_unreachable alwaysServerError pngUrl).
  discriminate.
Defined.

(** The text of the response is part of the error raised for it. *)
Lemma marker_in_text (t marker : JsString) :
  includes t marker = true ->
  includes (textInsteadOfImageMessage (Some t)) marker = true.
Proof.
  intros H. unfold textInsteadOfImageMessage, orNoText.
  destruct t as [|c t].
  - destruct marker; [reflexivity | discriminate H].
  - cbn [truthy].
    apply includes_app_r, includes_app_r, includes_app_l, H.
Qed.

(** X5.  A response without an image part goes through the [catch] block of
    its own iteration like any error: the run waits and calls again when the
    error text built around the text of the response holds a marker and the
    iteration is below the cap, and otherwise ends there with the failure
    that carries that error text.  A response text that includes one of
    the markers puts the marker into the error text.  With no text, or an
    empty one, the error text reports that no text was received, and it
    holds no marker. *)
Theorem text_only_response
        (rt : Runtime) (req : GenerateContentParameters) (attempt : Z)
        (response : GenerateContentResponse) :
  (1 <= attempt <= maxRetries)%Z ->
  generateContent rt attempt req = Fulfilled response ->
  imagePartFromResponse response = None ->
  (if isInternalError (textInsteadOfImageMessage (text response))
      && (attempt <? maxRetries)%Z
   then loopFrom rt req attempt =
        (let (r, tr) := loopFrom rt req (attempt + 1) in
         (r, Call req :: Sleep (backoffDelay attempt) :: tr))
   else loopFrom rt req attempt =
        (Rejected
           (ErrorObject
              (failedWithDetailMessage
                 attempt (textInsteadOfImageMessage (text response)))),
         [Call req])) /\
  (forall t,
      text response = Some t ->
      includes t code500 = true \/ includes t INTERNAL = true ->
      isInternalError (textInsteadOfImageMessage (text response)) = true) /\
  (text response = None \/ text response = Some [] ->
   textInsteadOfImageMessage (text response)
   = lit "AI 模型回傳了文字而非圖片: " ++ dquote ++ lit "未收到文字回應。"
     ++ dquote /\
   isInternalError (textInsteadOfImageMessage (text response)) = false).
Proof.
  intros Hr Hc Hi. split; [|split].
  - assert (Htry : tryBlock rt req attempt
                   = Rejected (ErrorObject
                                 (textInsteadOfImageMessage (text response))))
      by (unfold tryBlock; now rewrite Hc, Hi).
    rewrite loopFrom_step, Htry by lia.
    destruct (isInternalError (textInsteadOfImageMessage (text response))
              && (attempt <? maxRetries)%Z) eqn:E.
    + apply andb_true_iff in E as [Hm Hlt]. apply Z.ltb_lt in Hlt.
      now rewrite catchBlock_retry.
    + now rewrite catchBlock_Throw.
  - intros t -> [H|H]; unfold isInternalError;
      rewrite (marker_in_text _ _ H); [reflexivity | apply orb_true_r].
  - intros [-> | ->]; split; reflexivity.
Qed.

Lemma text_only_response_witness :
  loopFrom alwaysProse pngRequest 1 =
  (Rejected
     (ErrorObject
        (failedWithDetailMessage
           1 (textInsteadOfImageMessage (Some (lit "I cannot paint this."))))),
   [Call pngRequest]) /\
  isInternalError (textInsteadOfImageMessage (Some (lit "INTERNAL"))) = true /\
  isInternalError (textInsteadOfImageMessage None) = false.
Proof.
  split; [|split].
  - apply (proj1 (@text_only_response
                    alwaysProse pngRequest 1
                    (textResponse (lit "I cannot paint this."))
                    ltac:(cbv; split; discriminate) eq_refl eq_refl)).
  - apply (proj1 (proj2 (@text_only_response
                           alwaysInternalProse pngRequest 1
                           (textResponse (lit "INTERNAL"))
                           ltac:(cbv; split; discriminate) eq_refl eq_refl))
                 (lit "INTERNAL") eq_refl).
    right. reflexivity.
  - apply (proj2 (proj2 (@text_only_response
                           (always (Fulfilled emptyResponse)) pngRequest 1
                           emptyResponse
                           ltac:(cbv; split; discriminate) eq_refl eq_refl))).
    left. reflexivity.
Defined.

(** X6.  A part with inline data but without data is never turned into a
    result: reading the length of the missing data raises the [TypeError] of
    the engine inside the [try] block, and when the wording of the engine
    holds no marker the run ends in that iteration, with the failure that
    carries this wording. *)
Theorem inline_part_without_data
        (rt : Runtime) (req : GenerateContentParameters) (attempt : Z)
        (response : GenerateContentResponse) (blob : Blob) :
  (1 <= attempt <= maxRetries)%Z ->
  generateContent rt attempt req = Fulfilled response ->
  imagePartFromResponse response = Some blob ->
  data blob = None ->
  tryBlock rt req attempt
  = Rejected (ErrorObject (typeErrorMessage rt (lit "length"))) /\
  (isInternalError (typeErrorMessage rt (lit "length")) = false ->
   loopFrom rt req attempt =
   (Rejected
      (ErrorObject
         (failedWithDetailMessage attempt (typeErrorMessage rt (lit "length")))),
    [Call req])).
Proof.
  intros Hr Hc Hi Hd.
  assert (Htry : tryBlock rt req attempt
                 = Rejected (ErrorObject (typeErrorMessage rt (lit "length"))))
    by (unfold tryBlock; now rewrite Hc, Hi, Hd).
  split; [exact Htry|].
  intros Hm. rewrite loopFrom_step, Htry by lia.
  rewrite catchBlock_Throw; [reflexivity|].
  unfold hasInternalMarker. cbn [errorMessage]. now rewrite Hm.
Qed.

Lemma inline_part_without_data_witness :
  loopFrom (always (Fulfilled (imageResponse (Some (lit "image/png")) None)))
           pngRequest 1 =
  (Rejected
     (ErrorObject
        (failedWithDetailMessage
           1 (typeErrorMessage
                (always (Fulfilled
                           (imageResponse (Some (lit "image/png")) None)))
                (lit "length")))),
   [Call pngRequest]).
Proof.
  apply (proj2 (@inline_part_without_data
                  (always (Fulfilled
                             (imageResponse (Some (lit "image/png")) None)))
                  pngRequest 1
                  (imageResponse (Some (lit "image/png")) None)
                  {| mimeType := Some (lit "image/png"); data := None |}
                  (conj (Z.le_refl 1) (Zle_bool_imp_le 1 3 eq_refl))
                  eq_refl eq_refl eq_refl)).
  reflexivity.
Defined.

End GeneratorProperties.

(* ================================================================= *)
(** ** Further properties of the component *)

Module ComponentProperties.
Import GeminiService JsFacts GeminiServiceFacts App Scenarios Notions AppFacts.

(** *** Blank strings *)

Lemma trimStart_blank (s : JsString) :
  trimStart s = [] <-> forallb isTrimmed s = true.
Proof.
  induction s as [|c s IH]; cbn [trimStart forallb]; [tauto|].
  destruct (isTrimmed c); cbn [andb]; [exact IH|].
  split; discriminate.
Qed.

(** [trim] gives the empty string exactly for the strings made of white
    space and line terminators only. *)
Lemma trim_blank (s : JsString) :
  truthy (trim s) = false <-> forallb isTrimmed s = true.
Proof.
  unfold trim. split.
  - intros H.
    assert (E : trimStart (rev (trimStart s)) = []).
    { destruct (trimStart (rev (trimStart s))) as [|c r] eqn:E; [reflexivity|].
      cbn [rev] in H. destruct (rev r); discriminate H. }
    apply trimStart_blank in E. rewrite forallb_forall in E.
    destruct (trimStart s) as [|c r] eqn:Es; [now apply trimStart_blank|].
    exfalso.
    assert (Hc : isTrimmed c = true)
      by (apply E, in_rev; rewrite rev_involutive; now left).
    clear E H. induction s as [|d s IH]; [discriminate Es|].
    cbn [trimStart] in Es. destruct (isTrimmed d) eqn:Hd; [auto|].
    injection Es as -> _. congruence.
  - intros H. apply trimStart_blank in H. now rewrite H.
Qed.

(** *** What a successful run of the generator tells *)

Lemma generate_success (rt : Runtime) (image url : JsString)
      (trace : list Event) :
  generateWatercolourPainting rt image = (Fulfilled url, trace) ->
  truthy url = true /\ startsWith (lit "data:") url = true /\
  exists m p, matchDataUrl image = Some (m, p).
Proof.
  unfold generateWatercolourPainting.
  destruct (matchDataUrl image) as [[m p]|] eqn:Hm; [|discriminate].
  intros H.
  pose proof (@attemptLoop_outcome rt (request m p) 3 1
                eq_refl ltac:(lia) ltac:(lia)) as G.
  change (Z.to_nat maxRetries) with 3%nat in H. rewrite H in G.
  destruct G as (attempt & response & blob & d & _ & _ & _ & _ & ->).
  repeat split; eauto.
Qed.

Section Component.

Variable LatLngLiteral : Type.

(** *** The state between two events *)

Lemma initial_consistent : Consistent (@initialState LatLngLiteral).
Proof.
  unfold Consistent. cbn. repeat split; auto; discriminate.
Qed.

Lemma initMap_consistent (librariesLoaded : bool) (location : LatLngLiteral)
      (formattedAddr : JsString) (st0 st : AppState LatLngLiteral) :
  mapRef st0 = true ->
  Consistent st ->
  Consistent (run st (initMap librariesLoaded location formattedAddr st0)).
Proof.
  intros Href C. unfold initMap. rewrite Href.
  destruct librariesLoaded; [|exact C].
  destruct C as (Hg & Hl & Hr & _ & _ & _ & _ & _ & _).
  unfold Consistent. cbn.
  repeat split; auto; discriminate.
Qed.

(** Every handler, run to its end from a consistent state, leaves a
    consistent state. *)
Lemma step_consistent (ev : UiEvent LatLngLiteral)
      (st : AppState LatLngLiteral) :
  Consistent st -> Consistent (step st ev).
Proof.
  intros C.
  pose proof C as (Hg & Hl & Href & Hcw & Hmi & Hmk & Hwm & Hcv & Hwd).
  unfold step.
  destruct ev as [value|place libs|geocode libs|canvas rt| | |]; cbn [handle].
  - unfold Consistent. cbn. repeat split; auto.
  - unfold placeChanged.
    destruct (placeLocation place) as [location|]; [|exact C].
    destruct (formatted_address place) as [formattedAddr|]; [|exact C].
    destruct (truthy formattedAddr); [|exact C].
    change (SetAddress formattedAddr :: initMap libs location formattedAddr st)
      with ([SetAddress formattedAddr]
              ++ initMap libs location formattedAddr st).
    rewrite run_app. apply initMap_consistent; [assumption|].
    unfold Consistent. cbn. repeat split; auto.
  - unfold handleShow3DView.
    destruct (negb (truthy (trim (address st)))).
    { unfold Consistent. cbn. repeat split; auto. }
    destruct geocode as [[[|r results]|]|err];
      try (unfold Consistent; cbn; repeat split; auto; fail).
    change (SetError None :: SetIsLoading true ::
              [SetAddress (resultAddress r); SetIsLoading false]
              ++ initMap libs (geometryLocation r) (resultAddress r) st)
      with ([SetError None; SetIsLoading true;
             SetAddress (resultAddress r); SetIsLoading false]
              ++ initMap libs (geometryLocation r) (resultAddress r) st).
    rewrite run_app. apply initMap_consistent; [assumption|].
    unfold Consistent. cbn. repeat split; auto.
  - rewrite handleGenerateWatercolour_ops. unfold imageToProcess.
    destruct (truthy (watercolourPainting st)
              && truthy (capturedMapImage st)) eqn:E; cbn [fst snd].
    + apply andb_true_iff in E as [Ew Ec].
      destruct (generateWatercolourPainting rt (capturedMapImage st))
        as [[url|err] trace] eqn:G; cbn [fst snd].
      * apply generate_success in G as (Hurl & Hdata & _).
        unfold Consistent. cbn.
        repeat split; auto; congruence.
      * unfold Consistent. cbn. repeat split; auto; discriminate.
    + unfold captureMapView.
      destruct (mapInstanceRef st) as [mapInstance|] eqn:Emap;
        [|unfold Consistent; cbn; rewrite Emap;
          repeat split; auto; discriminate].
      destruct canvas as [newImageDataUrl|err]; cbn [fst snd];
        [|unfold Consistent; cbn; rewrite Emap;
          repeat split; auto; discriminate].
      destruct (generateWatercolourPainting rt newImageDataUrl)
        as [[url|err] trace] eqn:G; cbn [fst snd].
      * apply generate_success in G as (Hurl & Hdata & Hm).
        assert (Hnew : truthy newImageDataUrl = true).
        { destruct Hm as (m & p & Hm).
          destruct newImageDataUrl; [discriminate Hm | reflexivity]. }
        cbn [defined] in Hmi.
        unfold Consistent. cbn. rewrite Emap.
        repeat split; auto; congruence.
      * unfold Consistent. cbn. rewrite Emap.
        repeat split; auto; discriminate.
  - unfold Consistent. cbn. repeat split; auto; discriminate.
  - unfold handleDownloadPainting.
    destruct (negb (truthy (watercolourPainting st))); exact C.
  - unfold Consistent. cbn. repeat split; auto.
Qed.

Lemma steps_consistent (evs : list (UiEvent LatLngLiteral)) :
  forall st : AppState LatLngLiteral, Consistent st -> Consistent (steps st evs).
Proof.
  induction evs as [|ev evs IH]; intros st C; [exact C|].
  cbn [steps fold_left]. apply IH, step_consistent, C.
Qed.

(** X7.  Whatever the events since the component was mounted, and whatever
    the map, the canvas and the remote model did, the state between two
    events is consistent: nothing is generating or loading; there is a
    cached capture exactly when there is a painting; the map is initialized
    exactly when the map widget and its marker exist; a painting is only
    shown over an initialized map; the cached capture is an input that the
    generator accepts, and the painting is a data URL.  The phase is then
    never the generating one, and it is the result phase exactly when a
    capture is cached. *)
Theorem reachable_states_consistent (evs : list (UiEvent LatLngLiteral)) :
  Consistent (steps initialState evs) /\
  phase (steps initialState evs) <> Generating /\
  truthy (capturedMapImage (steps initialState evs))
  = match phase (steps initialState evs) with
    | ResultReady => true
    | _ => false
    end.
Proof.
  pose proof (steps_consistent evs initial_consistent) as C.
  split; [exact C|].
  destruct C as (Hg & _ & _ & Hcw & _ & _ & _ & _ & _).
  unfold phase. rewrite Hg, Hcw.
  destruct (truthy (watercolourPainting (steps initialState evs)));
    [split; [discriminate | reflexivity]|].
  destruct (mapInitialized (steps initialState evs));
    split; try discriminate; reflexivity.
Qed.

(** X8.  When handlers run one at a time, each to its end before the next
    event is handled: a generation requested in the result phase, after any
    events since the component was mounted, never fails on the validation
    of its input:
    the view is not captured, the generator is given the cached capture,
    this capture matches the input pattern, and the remote model is called
    with its MIME type and payload. *)
Theorem rerun_reaches_the_model
        (evs : list (UiEvent LatLngLiteral)) (canvas : Settled JsString)
        (rt : Runtime) :
  phase (steps initialState evs) = ResultReady ->
  captures (handleGenerateWatercolour canvas rt (steps initialState evs))
  = 0%nat /\
  generated (handleGenerateWatercolour canvas rt (steps initialState evs))
  = [capturedMapImage (steps initialState evs)] /\
  exists m p r tr,
    matchDataUrl (capturedMapImage (steps initialState evs)) = Some (m, p) /\
    generateWatercolourPainting rt (capturedMapImage (steps initialState evs))
    = (r, Call (request m p) :: tr).
Proof.
  intros Hphase.
  pose proof (steps_consistent evs initial_consistent) as C.
  set (st := steps initialState evs) in *.
  destruct C as (Hg & _ & _ & Hcw & _ & _ & _ & Hcv & _).
  assert (Hw : truthy (watercolourPainting st) = true).
  { unfold phase in Hphase. rewrite Hg in Hphase.
    destruct (truthy (watercolourPainting st)); [reflexivity|].
    destruct (mapInitialized st); discriminate. }
  assert (Hc : truthy (capturedMapImage st) = true) by congruence.
  rewrite handleGenerateWatercolour_ops. unfold imageToProcess.
  rewrite Hw, Hc. cbn [andb fst snd].
  split; [|split].
  - destruct (fst (generateWatercolourPainting rt (capturedMapImage st)));
      reflexivity.
  - destruct (fst (generateWatercolourPainting rt (capturedMapImage st)));
      reflexivity.
  - destruct (Hcv Hc) as (m & p & Hm).
    exists m, p. unfold generateWatercolourPainting. rewrite Hm.
    change (Z.to_nat maxRetries) with 3%nat.
    destruct (@GeneratorProperties.attemptLoop_trace
                rt (request m p) 3 1 eq_refl ltac:(lia))
      as (k & _ & Htr).
    destruct (attemptLoop rt (request m p) 3 1) as [r tr].
    cbn [snd] in Htr. subst tr.
    destruct k; cbn [retriedFrom app]; eauto.
Qed.

(** *** The placeholder *)

Lemma indexOfSucc_nth (i : nat) :
  (i < 7)%nat ->
  indexOfSucc placeholders (nth i placeholders []) = S i.
Proof.
  intros Hi.
  do 7 (destruct i as [|i]; [vm_compute; reflexivity|]). lia.
Qed.

Lemma step_placeholder (ev : UiEvent LatLngLiteral)
      (st : AppState LatLngLiteral) (i : nat) :
  (i < 7)%nat ->
  placeholder st = nth i placeholders [] ->
  placeholder (step st ev)
  = nth ((i + ticks [ev]) mod 7) placeholders [].
Proof.
  intros Hi Hp. unfold step.
  destruct ev as [value|place libs|geocode libs|canvas rt| | |];
    cbn [handle ticks]; rewrite ?Nat.add_0_r, ?(Nat.mod_small i 7) by lia.
  - exact Hp.
  - unfold placeChanged, initMap.
    destruct (placeLocation place); [|exact Hp].
    destruct (formatted_address place) as [a|]; [|exact Hp].
    destruct (truthy a); [|exact Hp].
    destruct (mapRef st), libs; exact Hp.
  - unfold handleShow3DView, initMap.
    destruct (negb (truthy (trim (address st)))); [exact Hp|].
    destruct geocode as [[[|r results]|]|err]; try exact Hp.
    destruct (mapRef st), libs; exact Hp.
  - rewrite handleGenerateWatercolour_ops. unfold imageToProcess.
    destruct (truthy (watercolourPainting st)
              && truthy (capturedMapImage st)); cbn [fst snd].
    + destruct (fst (generateWatercolourPainting rt (capturedMapImage st)));
        exact Hp.
    + destruct (captureMapView canvas st) as [new|err]; cbn [fst snd];
        [|exact Hp].
      destruct (fst (generateWatercolourPainting rt new)); exact Hp.
  - exact Hp.
  - unfold handleDownloadPainting.
    destruct (negb (truthy (watercolourPainting st))); exact Hp.
  - unfold rotatePlaceholder. cbn [run fold_left applyOp placeholder].
    rewrite Hp, indexOfSucc_nth by lia.
    change (List.length placeholders) with 7%nat.
    now rewrite Nat.add_1_r.
Qed.

Lemma ticks_cons (ev : UiEvent LatLngLiteral)
      (evs : list (UiEvent LatLngLiteral)) :
  ticks (ev :: evs) = (ticks [ev] + ticks evs)%nat.
Proof. destruct ev; reflexivity. Qed.

Lemma steps_placeholder (evs : list (UiEvent LatLngLiteral)) :
  forall (st : AppState LatLngLiteral) (i : nat),
    (i < 7)%nat ->
    placeholder st = nth i placeholders [] ->
    placeholder (steps st evs) = nth ((i + ticks evs) mod 7) placeholders [].
Proof.
  induction evs as [|ev evs IH]; intros st i Hi Hp.
  - cbn [steps fold_left ticks]. now rewrite Nat.add_0_r, Nat.mod_small.
  - change (steps st (ev :: evs)) with (steps (step st ev) evs).
    rewrite (IH (step st ev) ((i + ticks [ev]) mod 7)%nat).
    + now rewrite Nat.Div0.add_mod_idemp_l, <- Nat.add_assoc, <- ticks_cons.
    + apply Nat.mod_upper_bound. discriminate.
    + now apply step_placeholder.
Qed.

(** X9.  The placeholder of the address field only moves with the ticks of
    its interval, and it cycles through the seven texts in order: after any
    events since the component was mounted, it is the text whose index is
    the number of ticks modulo 7. *)
Theorem placeholder_cycles (evs : list (UiEvent LatLngLiteral)) :
  placeholder (steps (@initialState LatLngLiteral) evs)
  = nth (ticks evs mod 7) placeholders [] /\
  List.length placeholders = 7%nat.
Proof.
  split; [|reflexivity].
  now rewrite (@steps_placeholder evs initialState 0%nat) by (lia || reflexivity).
Qed.

(** *** The handlers *)

(** X10.  Back to the map from the result phase: the painting and the
    cached capture are dropped and nothing else changes, the component is in
    the view phase, and the next generation captures the view exactly once
    and gives the generator nothing but that capture. *)
Theorem back_to_map_then_fresh_capture
        (st : AppState LatLngLiteral) (canvas : Settled JsString)
        (rt : Runtime) :
  phase st = ResultReady ->
  mapInitialized st = true ->
  step st BackToMap
  = applyOp (applyOp st (SetWatercolourPainting []))
            (SetCapturedMapImage []) /\
  phase (step st BackToMap) = ViewReady /\
  address (step st BackToMap) = address st /\
  error (step st BackToMap) = error st /\
  mapInstanceRef (step st BackToMap) = mapInstanceRef st /\
  captures (handleGenerateWatercolour canvas rt (step st BackToMap)) = 1%nat /\
  forall image,
    In image (generated (handleGenerateWatercolour
                           canvas rt (step st BackToMap))) ->
    captureMapView canvas st = Fulfilled image.
Proof.
  intros Hphase Hmap.
  assert (Hg : isGeneratingPainting st = false).
  { unfold phase in Hphase. now destruct (isGeneratingPainting st). }
  split; [reflexivity|]. split.
  { unfold phase. cbn. now rewrite Hg, Hmap. }
  repeat (split; [reflexivity|]).
  apply (@fresh_capture LatLngLiteral canvas rt (step st BackToMap)).
  reflexivity.
Qed.

(** X11.  Submitting an address made of white space only, or an empty one,
    changes nothing but the error cell, which asks for an address: the
    geocoder is not consulted, nothing is loading, and the map, the painting
    and the cached capture stay as they are. *)
Theorem blank_address_is_refused
        (st : AppState LatLngLiteral)
        (geocode : Settled (option (list (GeocoderResult LatLngLiteral))))
        (librariesLoaded : bool) :
  forallb isTrimmed (address st) = true ->
  step st (Show3DView geocode librariesLoaded)
  = applyOp st (SetError (Some enterAddressMessage)).
Proof.
  intros H. apply trim_blank in H.
  unfold step. cbn [handle]. unfold handleShow3DView. rewrite H.
  reflexivity.
Qed.

(** X12.  A search for an address that is not blank and that the geocoder
    does not resolve changes nothing but the error cell and the loading
    flag: the loading flag ends false, the map, the painting and the cached
    capture stay as they are, and the error cell holds the not-found text
    with the address when there is no result, the second not-found text
    when the geocoder raised an [Error] with ZERO_RESULTS in its message,
    the message of any other [Error], and the unknown-error text for a
    thrown value that is not an [Error]. *)
Theorem failed_search_keeps_the_view
        (st : AppState LatLngLiteral)
        (geocode : Settled (option (list (GeocoderResult LatLngLiteral))))
        (librariesLoaded : bool) :
  truthy (trim (address st)) = true ->
  match geocode with
  | Fulfilled (Some (_ :: _)) => True
  | Fulfilled _ =>
      step st (Show3DView geocode librariesLoaded)
      = applyOp (applyOp st (SetError
                               (Some (notFoundTryMessage (address st)))))
                (SetIsLoading false)
  | Rejected (ErrorObject message) =>
      step st (Show3DView geocode librariesLoaded)
      = applyOp (applyOp st (SetError
                               (Some (if includes message (lit "ZERO_RESULTS")
                                      then notFoundCheckMessage (address st)
                                      else message))))
                (SetIsLoading false)
  | Rejected (OtherValue _) =>
      step st (Show3DView geocode librariesLoaded)
      = applyOp (applyOp st (SetError (Some unknownErrorMessage)))
                (SetIsLoading false)
  end.
Proof.
  intros H. unfold step. cbn [handle]. unfold handleShow3DView. rewrite H.
  destruct geocode as [[[|r results]|]|[message|json]];
    try exact I; reflexivity.
Qed.

(** X13.  After an event that resolves a location and renders it, the
    component shows that location everywhere: the address cell holds the
    resolved address, the map is centred on the location, and the marker is
    at the location with the address as its title.  The marker is attached
    to the map only when it existed before: the first one is created
    detached.  A submitted search also clears the error cell and ends not
    loading; a place chosen from the suggestions leaves the error cell as it
    was. *)
Theorem rendered_location_is_shown
        (ev : UiEvent LatLngLiteral) (st : AppState LatLngLiteral)
        (location : LatLngLiteral) (formattedAddr : JsString) :
  rendersLocation ev st = true ->
  resolved ev = Some (location, formattedAddr) ->
  address (step st ev) = formattedAddr /\
  mapInstanceRef (step st ev) = Some {| center := location |} /\
  markerInstanceRef (step st ev)
  = Some {| position := location; title := formattedAddr;
            attached := defined (markerInstanceRef st) |} /\
  match ev with
  | Show3DView _ _ =>
      error (step st ev) = None /\ isLoading (step st ev) = false
  | _ =>
      error (step st ev) = error st /\ isLoading (step st ev) = isLoading st
  end.
Proof.
  intros Hev Hres. unfold rendersLocation in Hev.
  apply andb_true_iff in Hev as [Href Hev]. unfold step.
  destruct ev as [value|place libs|geocode libs|canvas rt| | |];
    try discriminate Hev; cbn [handle resolved] in *.
  - apply andb_true_iff in Hev as [-> Hev]. unfold placeChanged, initMap.
    destruct (placeLocation place) as [l|]; [|discriminate].
    destruct (formatted_address place) as [a|]; [|discriminate].
    injection Hres as -> ->. rewrite Hev, Href.
    destruct (markerInstanceRef st); cbn; auto.
  - destruct geocode as [[[|r results]|]|err]; try discriminate Hev.
    apply andb_true_iff in Hev as [-> Hev]. unfold handleShow3DView, initMap.
    injection Hres as <- <-. rewrite Hev, Href.
    destruct (markerInstanceRef st); cbn; auto.
Qed.


(** X15.  When the generator succeeds and no other handler has run while
    this one was awaiting the capture or the generator, the handler ends in
    the result phase: the painting is what the generator returned, the image
    it was
    made from is the cached capture, the error cell is empty, the component
    is no longer generating, and the map is as it was. *)
Theorem generation_success_shows_the_result
        (canvas : Settled JsString) (rt : Runtime)
        (st : AppState LatLngLiteral)
        (image : JsString) (captureOps : list (Op LatLngLiteral))
        (url : JsString) (trace : list Event) :
  imageToProcess canvas st = (Fulfilled image, captureOps) ->
  generateWatercolourPainting rt image = (Fulfilled url, trace) ->
  watercolourPainting (run st (handleGenerateWatercolour canvas rt st)) = url /\
  capturedMapImage (run st (handleGenerateWatercolour canvas rt st)) = image /\
  error (run st (handleGenerateWatercolour canvas rt st)) = None /\
  isGeneratingPainting (run st (handleGenerateWatercolour canvas rt st))
  = false /\
  phase (run st (handleGenerateWatercolour canvas rt st)) = ResultReady /\
  mapInitialized (run st (handleGenerateWatercolour canvas rt st))
  = mapInitialized st /\
  mapInstanceRef (run st (handleGenerateWatercolour canvas rt st))
  = mapInstanceRef st /\
  remoteCalls (handleGenerateWatercolour canvas rt st) = calls trace.
Proof.
  intros Himg Hgen.
  destruct (generate_success rt image Hgen) as (Hurl & _ & _).
  rewrite handleGenerateWatercolour_ops, Himg. cbn [fst snd]. rewrite Hgen.
  cbn [fst snd].
  unfold imageToProcess in Himg.
  destruct (truthy (watercolourPainting st) && truthy (capturedMapImage st)).
  - injection Himg as <- <-. unfold phase. cbn. rewrite Hurl.
    repeat split; auto.
  - destruct (captureMapView canvas st) as [newImageDataUrl|e];
      [|discriminate].
    injection Himg as <- <-. unfold phase. cbn. rewrite Hurl.
    repeat split; auto.
Qed.

(** X16.  Downloading: without a painting nothing happens.  With a painting,
    one file is offered, whose content is the painting and whose name is the
    fixed prefix, a name and [.png]; the name is the word painting when the
    address is empty, and otherwise the address with every code unit outside
    the letters, digits and CJK ideographs of line 222 replaced by an
    underscore, the others kept in place.  The name never holds another
    code unit than those and the underscore.  The state is not changed. *)
Theorem download_file_name (st : AppState LatLngLiteral) :
  (truthy (watercolourPainting st) = false ->
   handleDownloadPainting st = []) /\
  (truthy (watercolourPainting st) = true ->
   exists name,
     handleDownloadPainting st
     = [Download (watercolourPainting st)
                 (lit "水彩畫_" ++ name ++ lit ".png")] /\
     forallb isFileNameChar name = true /\
     (address st = [] -> name = lit "painting") /\
     (address st <> [] ->
      List.length name = List.length (address st) /\
      forall i c,
        nth_error (address st) i = Some c ->
        nth_error name i = Some (if isSafeChar c then c else 95%N))) /\
  step st DownloadPainting = st.
Proof.
  split; [|split].
  - intros H. unfold handleDownloadPainting. now rewrite H.
  - intros H. unfold handleDownloadPainting. rewrite H. cbn [negb].
    destruct (address st) as [|c a] eqn:Ea.
    + exists (lit "painting").
      split; [reflexivity|]. split; [reflexivity|]. split; [reflexivity|].
      intros Hne. now destruct Hne.
    + set (safe := map (fun c0 => if isSafeChar c0 then c0 else 95%N) (c :: a)).
      assert (Ht : truthy safe = true) by reflexivity.
      exists safe. rewrite Ht. repeat split.
      * subst safe. apply forallb_forall. intros x Hx.
        apply in_map_iff in Hx as (y & <- & _).
        unfold isFileNameChar. destruct (isSafeChar y) eqn:Ey;
          [now rewrite Ey | apply orb_true_r].
      * discriminate.
      * subst safe. apply length_map.
      * intros i d Hd. subst safe. now rewrite nth_error_map, Hd.
  - unfold step. cbn [handle]. unfold handleDownloadPainting.
    destruct (negb (truthy (watercolourPainting st))); reflexivity.
Qed.

(** X17.  No handler does more than the generation handler, and that one is
    bounded: an event makes at most one capture of the view, at most one run
    of the painting generator, and at most three calls of the remote model;
    an event other than a generation request makes none of them. *)
Theorem effects_are_bounded
        (ev : UiEvent LatLngLiteral) (st : AppState LatLngLiteral) :
  (captures (handle ev st) <= 1)%nat /\
  (List.length (generated (handle ev st)) <= 1)%nat /\
  (remoteCalls (handle ev st) <= 3)%nat /\
  (isGenerate ev = false ->
   captures (handle ev st) = 0%nat /\ generated (handle ev st) = [] /\
   remoteCalls (handle ev st) = 0%nat).
Proof.
  assert (Hother : isGenerate ev = false ->
                   captures (handle ev st) = 0%nat /\
                   generated (handle ev st) = [] /\
                   remoteCalls (handle ev st) = 0%nat).
  { intros Hev.
    destruct ev as [value|place libs|geocode libs|canvas rt| | |];
      try discriminate Hev; cbn [handle].
    - repeat split; reflexivity.
    - unfold placeChanged, initMap.
      destruct (placeLocation place); [|repeat split; reflexivity].
      destruct (formatted_address place) as [a|]; [|repeat split; reflexivity].
      destruct (truthy a); [|repeat split; reflexivity].
      destruct (mapRef st), libs; repeat split; reflexivity.
    - unfold handleShow3DView, initMap.
      destruct (negb (truthy (trim (address st))));
        [repeat split; reflexivity|].
      destruct geocode as [[[|r results]|]|err]; try (repeat split; reflexivity).
      destruct (mapRef st), libs; repeat split; reflexivity.
    - repeat split; reflexivity.
    - unfold handleDownloadPainting.
      destruct (negb (truthy (watercolourPainting st)));
        repeat split; reflexivity.
    - repeat split; reflexivity. }
  destruct (isGenerate ev) eqn:Hev.
  - destruct ev as [value|place libs|geocode libs|canvas rt| | |];
      try discriminate Hev.
    cbn [handle]. rewrite handleGenerateWatercolour_ops.
    unfold imageToProcess.
    repeat split; try discriminate.
    + destruct (truthy (watercolourPainting st)
                && truthy (capturedMapImage st)); cbn [fst snd].
      * destruct (fst (generateWatercolourPainting rt (capturedMapImage st)));
          cbn; lia.
      * destruct (captureMapView canvas st) as [new|[m|j]]; cbn [fst snd];
          [|cbn; lia|cbn; lia].
        destruct (fst (generateWatercolourPainting rt new)); cbn; lia.
    + destruct (truthy (watercolourPainting st)
                && truthy (capturedMapImage st)); cbn [fst snd].
      * destruct (fst (generateWatercolourPainting rt (capturedMapImage st)));
          cbn; lia.
      * destruct (captureMapView canvas st) as [new|[m|j]]; cbn [fst snd];
          [|cbn; lia|cbn; lia].
        destruct (fst (generateWatercolourPainting rt new)); cbn; lia.
    + destruct (truthy (watercolourPainting st)
                && truthy (capturedMapImage st)); cbn [fst snd].
      * pose proof (generate_calls rt (capturedMapImage st)) as Hc.
        destruct (generateWatercolourPainting rt (capturedMapImage st))
          as [[url|[m|j]] tr]; cbn in *; lia.
      * destruct (captureMapView canvas st) as [new|[m|j]]; cbn [fst snd];
          [|cbn; lia|cbn; lia].
        pose proof (generate_calls rt new) as Hc.
        destruct (generateWatercolourPainting rt new)
          as [[url|[m|j]] tr]; cbn in *; lia.
  - destruct (Hother eq_refl) as (-> & -> & ->).
    repeat split; auto; cbn; lia.
Qed.

End Component.

(** *** The properties on the runs of [Scenarios] *)

Lemma rerun_reaches_the_model_witness :
  captures (handleGenerateWatercolour
              (Fulfilled otherCapture) alwaysKeyError
              (steps initialState
                     (submitEiffel
                        ++ [GenerateWatercolour (Fulfilled pngUrl)
                                                alwaysPainting])))
  = 0%nat /\
  generated (handleGenerateWatercolour
               (Fulfilled otherCapture) alwaysKeyError
               (steps initialState
                      (submitEiffel
                         ++ [GenerateWatercolour (Fulfilled pngUrl)
                                                 alwaysPainting])))
  = [capturedMapImage
       (steps initialState
              (submitEiffel
                 ++ [GenerateWatercolour (Fulfilled pngUrl) alwaysPainting]))]
  /\
  exists m p r tr,
    matchDataUrl
      (capturedMapImage
         (steps initialState
                (submitEiffel
                   ++ [GenerateWatercolour (Fulfilled pngUrl) alwaysPainting])))
    = Some (m, p) /\
    generateWatercolourPainting
      alwaysKeyError
      (capturedMapImage
         (steps initialState
                (submitEiffel
                   ++ [GenerateWatercolour (Fulfilled pngUrl) alwaysPainting])))
    = (r, Call (request m p) :: tr).
Proof.
  exact (@rerun_reaches_the_model
           Coordinates
           (submitEiffel
              ++ [GenerateWatercolour (Fulfilled pngUrl) alwaysPainting])
           (Fulfilled otherCapture) alwaysKeyError eq_refl).
Defined.

Lemma back_to_map_then_fresh_capture_witness :
  phase (step resultReady BackToMap) = ViewReady /\
  captures (handleGenerateWatercolour (Fulfilled otherCapture) alwaysPainting
                                      (step resultReady BackToMap)) = 1%nat.
Proof.
  destruct (@back_to_map_then_fresh_capture
              Coordinates resultReady (Fulfilled otherCapture) alwaysPainting
              eq_refl eq_refl)
    as (_ & Hphase & _ & _ & _ & Hcap & _).
  split; [exact Hphase | exact Hcap].
Defined.

Lemma blank_address_is_refused_witness :
  step (step (@initialState Coordinates) (AddressInput (lit "   ")))
       (Show3DView (Fulfilled (Some [eiffelResult])) true)
  = applyOp (step (@initialState Coordinates) (AddressInput (lit "   ")))
            (SetError (Some enterAddressMessage)).
Proof.
  exact (@blank_address_is_refused
           Coordinates
           (step (@initialState Coordinates) (AddressInput (lit "   ")))
           (Fulfilled (Some [eiffelResult])) true eq_refl).
Defined.

Lemma failed_search_keeps_the_view_witness :
  step resultReady
       (Show3DView (Rejected (ErrorObject (lit "GEOCODER_GEOCODE: ZERO_RESULTS")))
                   true)
  = applyOp
      (applyOp resultReady
               (SetError
                  (Some (if includes (lit "GEOCODER_GEOCODE: ZERO_RESULTS")
                                     (lit "ZERO_RESULTS")
                         then notFoundCheckMessage (address resultReady)
                         else lit "GEOCODER_GEOCODE: ZERO_RESULTS"))))
      (SetIsLoading false).
Proof.
  exact (@failed_search_keeps_the_view
           Coordinates resultReady
           (Rejected (ErrorObject (lit "GEOCODER_GEOCODE: ZERO_RESULTS")))
           true eq_refl).
Defined.

Lemma rendered_location_is_shown_witness :
  address viewReady = resultAddress eiffelResult /\
  mapInstanceRef viewReady = Some {| center := eiffelTower |} /\
  markerInstanceRef viewReady
  = Some {| position := eiffelTower; title := resultAddress eiffelResult;
            attached := false |}.
Proof.
  destruct (@rendered_location_is_shown
              Coordinates
              (Show3DView (Fulfilled (Some [eiffelResult])) true)
              (step initialState (AddressInput (lit "Eiffel Tower, Paris")))
              eiffelTower (resultAddress eiffelResult) eq_refl eq_refl)
    as (Ha & Hm & Hk & _).
  split; [exact Ha|]. split; [exact Hm | exact Hk].
Defined.


Lemma generation_success_shows_the_result_witness :
  watercolourPainting resultReady = paintingUrl /\
  capturedMapImage resultReady = pngUrl /\
  phase resultReady = ResultReady.
Proof.
  destruct (@generation_success_shows_the_result
              Coordinates (Fulfilled pngUrl) alwaysPainting viewReady pngUrl
              [CaptureMapView; SetCapturedMapImage pngUrl]
              paintingUrl [Call pngRequest] eq_refl eq_refl)
    as (Hw & Hc & _ & _ & Hphase & _).
  split; [exact Hw|]. split; [exact Hc | exact Hphase].
Defined.

Lemma download_file_name_witness :
  handleDownloadPainting viewReady = [] /\
  exists name,
    handleDownloadPainting resultReady
    = [Download (watercolourPainting resultReady)
                (lit "水彩畫_" ++ name ++ lit ".png")] /\
    forallb isFileNameChar name = true /\
    List.length name = List.length (address resultReady).
Proof.
  split.
  - exact (proj1 (@download_file_name Coordinates viewReady) eq_refl).
  - destruct (proj1 (proj2 (@download_file_name Coordinates resultReady))
                    eq_refl)
      as (name & Hd & Hf & _ & Hl).
    exists name. split; [exact Hd|]. split; [exact Hf|].
    apply Hl. discriminate.
Defined.

Lemma effects_are_bounded_witness :
  captures (handle BackToMap resultReady) = 0%nat /\
  generated (handle BackToMap resultReady) = [] /\
  remoteCalls (handle BackToMap resultReady) = 0%nat.
Proof.
  exact (proj2 (proj2 (proj2 (@effects_are_bounded
                                Coordinates BackToMap resultReady)))
               eq_refl).
Defined.

Example download_name_of_eiffel :
  handleDownloadPainting resultReady
  = [Download paintingUrl
              (lit "水彩畫_Av__Gustave_Eiffel__75007_Paris__France.png")].
Proof. reflexivity. Qed.

(** *** Handlers that overlap *)

Section Overlap.

Variable LatLngLiteral : Type.

(** X18.  A location rendered while the painting generator is awaited: when
    the generator then succeeds, the handler ends in the result phase with
    the painting of the earlier view and without cached capture, over the
    map of the new location; the next generation request captures the view
    once. *)
Theorem recentre_while_generating
        (st : AppState LatLngLiteral) (canvas : Settled JsString)
        (rt : Runtime) (image : JsString)
        (captureOps : list (Op LatLngLiteral)) (url : JsString)
        (trace : list Event) (ev : UiEvent LatLngLiteral)
        (location : LatLngLiteral) (formattedAddr : JsString) :
  imageToProcess canvas st = (Fulfilled image, captureOps) ->
  generateWatercolourPainting rt image = (Fulfilled url, trace) ->
  rendersLocation ev st = true ->
  resolved ev = Some (location, formattedAddr) ->
  watercolourPainting
    (overlapped st (handleGenerateWatercolour canvas rt)
                (@isGeneratorCall LatLngLiteral) (handle ev)) = url /\
  capturedMapImage
    (overlapped st (handleGenerateWatercolour canvas rt)
                (@isGeneratorCall LatLngLiteral) (handle ev)) = [] /\
  mapInstanceRef
    (overlapped st (handleGenerateWatercolour canvas rt)
                (@isGeneratorCall LatLngLiteral) (handle ev))
  = Some {| center := location |} /\
  phase (overlapped st (handleGenerateWatercolour canvas rt)
                    (@isGeneratorCall LatLngLiteral) (handle ev))
  = ResultReady /\
  forall canvas' rt',
    captures (handleGenerateWatercolour
                canvas' rt'
                (overlapped st (handleGenerateWatercolour canvas rt)
                            (@isGeneratorCall LatLngLiteral) (handle ev)))
    = 1%nat.
Proof.
  intros Himg Hgen Hev Hres.
  destruct (generate_success rt image Hgen) as (Hurl & _ & _).
  unfold rendersLocation in Hev. apply andb_true_iff in Hev as [Href Hev].
  assert (H : watercolourPainting
                (overlapped st (handleGenerateWatercolour canvas rt)
                            (@isGeneratorCall LatLngLiteral) (handle ev)) = url
              /\ capturedMapImage
                   (overlapped st (handleGenerateWatercolour canvas rt)
                               (@isGeneratorCall LatLngLiteral) (handle ev))
                 = []
              /\ mapInstanceRef
                   (overlapped st (handleGenerateWatercolour canvas rt)
                               (@isGeneratorCall LatLngLiteral) (handle ev))
                 = Some {| center := location |}
              /\ isGeneratingPainting
                   (overlapped st (handleGenerateWatercolour canvas rt)
                               (@isGeneratorCall LatLngLiteral) (handle ev))
                 = false).
  { unfold overlapped.
    rewrite handleGenerateWatercolour_ops, Himg. cbn [fst snd].
    rewrite Hgen. cbn [fst snd].
    unfold imageToProcess in Himg.
    destruct ev as [value|place libs|geocode libs|canvas0 rt0| | |];
      try discriminate Hev; cbn [handle resolved] in *.
    - apply andb_true_iff in Hev as [-> Hev]. unfold placeChanged, initMap.
      destruct (placeLocation place) as [l|]; [|discriminate].
      destruct (formatted_address place) as [a|]; [|discriminate].
      injection Hres as -> ->. rewrite Hev.
      destruct (truthy (watercolourPainting st)
                && truthy (capturedMapImage st)).
      + injection Himg as _ <-. cbn. rewrite Href. cbn. auto.
      + destruct (captureMapView canvas st) as [new|e]; [|discriminate].
        injection Himg as _ <-. cbn. rewrite Href. cbn. auto.
    - destruct geocode as [[[|r results]|]|err]; try discriminate Hev.
      apply andb_true_iff in Hev as [-> Hev].
      unfold handleShow3DView, initMap.
      injection Hres as <- <-.
      destruct (truthy (watercolourPainting st)
                && truthy (capturedMapImage st)).
      + injection Himg as _ <-.
        cbn [app splitAfter isGeneratorCall].
        repeat match goal with
               | |- context [trim (address ?x)] =>
                   progress change (address x) with (address st)
               end.
        rewrite Hev. cbn. rewrite Href. cbn. auto.
      + destruct (captureMapView canvas st) as [new|e]; [|discriminate].
        injection Himg as _ <-.
        cbn [app splitAfter isGeneratorCall].
        repeat match goal with
               | |- context [trim (address ?x)] =>
                   progress change (address x) with (address st)
               end.
        rewrite Hev. cbn. rewrite Href. cbn. auto. }
  destruct H as (Hw & Hc & Hmap & Hg).
  repeat (split; [assumption|]). split.
  - unfold phase. now rewrite Hg, Hw, Hurl.
  - intros canvas' rt'. now apply fresh_capture.
Qed.

(** X20.  A location rendered while the capture of the view is awaited: when
    the capture and the generator then succeed, the capture that was
    started before the new location was rendered is written to the cache
    after [initMap] has cleared it, and the handler ends in the result phase
    over the map of the new location; the next generation request does not
    capture the view and gives the generator that earlier capture. *)
Theorem recentre_while_capturing
        (st : AppState LatLngLiteral) (canvas : Settled JsString)
        (rt : Runtime) (newImageDataUrl url : JsString)
        (trace : list Event) (ev : UiEvent LatLngLiteral)
        (location : LatLngLiteral) (formattedAddr : JsString) :
  truthy (watercolourPainting st) && truthy (capturedMapImage st) = false ->
  captureMapView canvas st = Fulfilled newImageDataUrl ->
  generateWatercolourPainting rt newImageDataUrl = (Fulfilled url, trace) ->
  rendersLocation ev st = true ->
  resolved ev = Some (location, formattedAddr) ->
  mapInstanceRef
    (overlapped st (handleGenerateWatercolour canvas rt)
                (@isCaptureCall LatLngLiteral) (handle ev))
  = Some {| center := location |} /\
  capturedMapImage
    (overlapped st (handleGenerateWatercolour canvas rt)
                (@isCaptureCall LatLngLiteral) (handle ev))
  = newImageDataUrl /\
  watercolourPainting
    (overlapped st (handleGenerateWatercolour canvas rt)
                (@isCaptureCall LatLngLiteral) (handle ev)) = url /\
  phase (overlapped st (handleGenerateWatercolour canvas rt)
                    (@isCaptureCall LatLngLiteral) (handle ev))
  = ResultReady /\
  forall canvas' rt',
    captures (handleGenerateWatercolour
                canvas' rt'
                (overlapped st (handleGenerateWatercolour canvas rt)
                            (@isCaptureCall LatLngLiteral) (handle ev)))
    = 0%nat /\
    generated (handleGenerateWatercolour
                 canvas' rt'
                 (overlapped st (handleGenerateWatercolour canvas rt)
                             (@isCaptureCall LatLngLiteral) (handle ev)))
    = [newImageDataUrl].
Proof.
  intros Hcache Hcap Hgen Hev Hres.
  destruct (generate_success rt newImageDataUrl Hgen) as (Hurl & _ & Hm).
  assert (Hnew : truthy newImageDataUrl = true).
  { destruct Hm as (m & p & Hm).
    destruct newImageDataUrl; [discriminate Hm | reflexivity]. }
  unfold rendersLocation in Hev. apply andb_true_iff in Hev as [Href Hev].
  assert (H : mapInstanceRef
                (overlapped st (handleGenerateWatercolour canvas rt)
                            (@isCaptureCall LatLngLiteral) (handle ev))
              = Some {| center := location |}
              /\ capturedMapImage
                   (overlapped st (handleGenerateWatercolour canvas rt)
                               (@isCaptureCall LatLngLiteral) (handle ev))
                 = newImageDataUrl
              /\ watercolourPainting
                   (overlapped st (handleGenerateWatercolour canvas rt)
                               (@isCaptureCall LatLngLiteral) (handle ev))
                 = url
              /\ isGeneratingPainting
                   (overlapped st (handleGenerateWatercolour canvas rt)
                               (@isCaptureCall LatLngLiteral) (handle ev))
                 = false).
  { unfold overlapped.
    rewrite handleGenerateWatercolour_ops. unfold imageToProcess.
    rewrite Hcache, Hcap. cbn [fst snd]. rewrite Hgen. cbn [fst snd].
    destruct ev as [value|place libs|geocode libs|canvas0 rt0| | |];
      try discriminate Hev; cbn [handle resolved] in *.
    - apply andb_true_iff in Hev as [-> Hev]. unfold placeChanged, initMap.
      destruct (placeLocation place) as [l|]; [|discriminate].
      destruct (formatted_address place) as [a|]; [|discriminate].
      injection Hres as -> ->. rewrite Hev.
      cbn. rewrite Href. cbn. auto.
    - destruct geocode as [[[|r results]|]|err]; try discriminate Hev.
      apply andb_true_iff in Hev as [-> Hev].
      unfold handleShow3DView, initMap.
      injection Hres as <- <-.
      cbn [app splitAfter isCaptureCall].
      repeat match goal with
             | |- context [trim (address ?x)] =>
                 progress change (address x) with (address st)
             end.
      rewrite Hev. cbn. rewrite Href. cbn. auto. }
  destruct H as (Hmap & Hc & Hw & Hg).
  repeat (split; [assumption|]). split.
  - unfold phase. now rewrite Hg, Hw, Hurl.
  - intros canvas' rt'.
    rewrite handleGenerateWatercolour_ops. unfold imageToProcess.
    rewrite Hw, Hc, Hurl, Hnew. cbn [andb fst snd].
    destruct (fst (generateWatercolourPainting rt' newImageDataUrl));
      split; reflexivity.
Qed.

End Overlap.

Lemma recentre_while_generating_witness :
  watercolourPainting recentredWhileGenerating = paintingUrl /\
  capturedMapImage recentredWhileGenerating = [] /\
  mapInstanceRef recentredWhileGenerating = Some {| center := louvre |} /\
  phase recentredWhileGenerating = ResultReady /\
  captures (handleGenerateWatercolour (Fulfilled otherCapture) alwaysPainting
                                      recentredWhileGenerating) = 1%nat.
Proof.
  destruct (@recentre_while_generating
              Coordinates viewReady (Fulfilled pngUrl) alwaysPainting pngUrl
              [CaptureMapView; SetCapturedMapImage pngUrl]
              paintingUrl [Call pngRequest] (PlaceChanged louvrePlace true)
              louvre (lit "Rue de Rivoli, 75001 Paris, France")
              eq_refl eq_refl eq_refl eq_refl)
    as (Hw & Hc & Hmap & Hphase & Hnext).
  repeat (split; [assumption|]).
  exact (Hnext (Fulfilled otherCapture) alwaysPainting).
Defined.

Lemma recentre_while_capturing_witness :
  mapInstanceRef recentredWhileCapturing = Some {| center := louvre |} /\
  capturedMapImage recentredWhileCapturing = pngUrl /\
  phase recentredWhileCapturing = ResultReady /\
  captures (handleGenerateWatercolour (Fulfilled otherCapture) alwaysPainting
                                      recentredWhileCapturing) = 0%nat.
Proof.
  destruct (@recentre_while_capturing
              Coordinates viewReady (Fulfilled pngUrl) alwaysPainting pngUrl
              paintingUrl [Call pngRequest] (PlaceChanged louvrePlace true)
              louvre (lit "Rue de Rivoli, 75001 Paris, France")
              eq_refl eq_refl eq_refl eq_refl eq_refl)
    as (Hmap & Hc & _ & Hphase & Hnext).
  repeat (split; [assumption|]).
  exact (proj1 (Hnext (Fulfilled otherCapture) alwaysPainting)).
Defined.

(** C9, the run that departs from it.  The view of the Eiffel tower is
    shown and its painting is requested: the handler starts the capture and
    is suspended.  While it waits, the Louvre is chosen from the
    suggestions: [initMap] renders the new location and clears the painting
    and the cached capture.  The capture then resolves and is written to
    the cache, and the painting is generated.  The component is in the
    result phase over the map of the Louvre, with the capture that was
    started at the Eiffel tower in its cache, and the next generation
    request, for any canvas, uses that capture and does not capture the
    view. *)
Theorem stale_capture_after_overlap :
  phase viewReady = ViewReady /\
  mapInstanceRef viewReady = Some {| center := eiffelTower |} /\
  splitAfter (@isCaptureCall Coordinates)
             (handleGenerateWatercolour (Fulfilled pngUrl) alwaysPainting
                                        viewReady)
  = ([SetIsGeneratingPainting true; SetError None; CaptureMapView],
     [SetCapturedMapImage pngUrl; GeneratePainting pngUrl [Call pngRequest];
      SetWatercolourPainting paintingUrl; SetIsGeneratingPainting false]) /\
  rendersLocation
    (PlaceChanged louvrePlace true)
    (run viewReady [SetIsGeneratingPainting true; SetError None;
                    CaptureMapView]) = true /\
  capturedMapImage
    (step (run viewReady [SetIsGeneratingPainting true; SetError None;
                          CaptureMapView])
          (PlaceChanged louvrePlace true)) = [] /\
  mapInstanceRef recentredWhileCapturing = Some {| center := louvre |} /\
  phase recentredWhileCapturing = ResultReady /\
  capturedMapImage recentredWhileCapturing = pngUrl /\
  captures (handleGenerateWatercolour (Fulfilled otherCapture) alwaysPainting
                                      recentredWhileCapturing) = 0%nat /\
  generated (handleGenerateWatercolour (Fulfilled otherCapture) alwaysPainting
                                       recentredWhileCapturing) = [pngUrl].
Proof. repeat split; reflexivity. Qed.

End ComponentProperties.
